(** * Image-asset scripts of the movieflix repository: model and properties

    The three scripts under [scripts/] are embedded shallowly:

    - [generate_brand_assets.py]  (module [BrandAssets])
    - [fix_adaptive_icon.py]      (module [AdaptiveIcon])
    - [generate_movies_splash.py] (module [Splash])

    Python integers are [Z], Python floats are IEEE binary64 primitive
    floats, exceptions are an explicit [result] type, and the file system
    and standard output are threaded through a small state monad.  The
    imaging library is modelled by module [PIL]; its resampling kernel,
    its alpha blending and its greyscale conversion stay abstract.

    Of [generate_movies_splash.py] the gradient background is computed
    pixel by pixel; the overlays drawn on it are embedded as the sequence
    of calls made to the imaging library, with their geometry, texts and
    colours, and what each call does to the pixels stays abstract, as do
    the fonts and the measuring of text.  Paths are joined with [/]. *)

From Stdlib Require Import ZArith Uint63 PrimFloat FloatOps SpecFloat.
From stdpp Require Import base option list gmap strings.

Local Open Scope Z_scope.
Set Warnings "-inexact-float".

(** ** Python primitives *)

Module Py.

Inductive exn : Type :=
| ValueError (msg : string)
| ZeroDivisionError
| OverflowError
| IndexError
| FileNotFoundError (path : string)
| IsADirectoryError (path : string)
| FileExistsError (path : string)
| SystemExit (msg : string).

Inductive result (A : Type) : Type :=
| Ok (a : A)
| Raise (e : exn).
Arguments Ok {A} a.
Arguments Raise {A} e.

#[global] Instance result_ret : MRet result := fun _ a => Ok a.
#[global] Instance result_bind : MBind result := fun _ _ k m =>
  match m with
  | Ok a => k a
  | Raise e => Raise e
  end.

(** [range(n)] *)
Definition range (n : Z) : list Z := seqZ 0 n.

(** [for x in xs: s = body(x, s)], stopping at the first exception. *)
Fixpoint for_in {A St : Type} (xs : list A) (body : A → St → result St) (s : St)
  : result St :=
  match xs with
  | [] => Ok s
  | x :: xs' => s' ← body x s; for_in xs' body s'
  end.

(** Conversion of an [int] to a [float]: correctly rounded (to nearest,
    ties to even); an integer beyond the range of binary64 raises. *)
Definition float_of_int (z : Z) : result float :=
  let f := SF2Prim (binary_normalize prec emax z 0 false) in
  if PrimFloat.is_infinity f then Raise OverflowError else Ok f.

(** [int(f)]: truncation toward zero. *)
Definition int_of_float (f : float) : result Z :=
  match Prim2SF f with
  | S754_zero _ => Ok 0
  | S754_finite s m e =>
      let mag := if 0 <=? e then Z.pos m * 2 ^ e else Z.pos m / 2 ^ (- e) in
      Ok (if s then - mag else mag)
  | S754_infinity _ => Raise OverflowError
  | S754_nan => Raise (ValueError "cannot convert float NaN to integer")
  end.

(** [a / b] on two [int]s (true division).  Both conversions are exact
    below [2^53], which covers every image dimension. *)
Definition truediv (a b : Z) : result float :=
  if b =? 0 then Raise ZeroDivisionError
  else x ← float_of_int a; y ← float_of_int b; Ok (x / y)%float.

(** [n * f] and [n / f] with an [int] on the left, [n + f] likewise. *)
Definition int_mul_float (n : Z) (f : float) : result float :=
  x ← float_of_int n; Ok (x * f)%float.
Definition int_div_float (n : Z) (f : float) : result float :=
  x ← float_of_int n;
  if PrimFloat.is_zero f then Raise ZeroDivisionError else Ok (x / f)%float.
Definition int_add_float (n : Z) (f : float) : result float :=
  x ← float_of_int n; Ok (x + f)%float.

End Py.
Import Py.

(** ** The imaging library *)

Module PIL.

Inductive Mode : Type := RGB | RGBA.

(** A pixel is stored with four bands in both modes; an [RGB] image
    exposes the first three and [convert] fixes the fourth to 255. *)
Definition Pixel : Type := Z * Z * Z * Z.

Record Image : Type := mkImage {
  mode : Mode;
  size : Z * Z;
  im : list (list Pixel)   (* rows, top to bottom *)
}.

Definition width (img : Image) : Z := fst (size img).
Definition height (img : Image) : Z := snd (size img).

(** The invariant the library keeps: [height] rows of [width] pixels. *)
Definition wf (img : Image) : Prop :=
  0 ≤ width img ∧ 0 ≤ height img ∧
  length (im img) = Z.to_nat (height img) ∧
  Forall (fun row => length row = Z.to_nat (width img)) (im img).

Definition opaque (p : Pixel) : Pixel :=
  let '(r, g, b, _) := p in (r, g, b, 255).

(** [img.convert(m)] between the two modes. *)
Definition convert (m : Mode) (img : Image) : Image :=
  match mode img, m with
  | RGBA, RGBA => img
  | _, _ => mkImage m (size img) (map (map opaque) (im img))
  end.

(** An image of one colour. *)
Definition solid (m : Mode) (sz : Z * Z) (color : Pixel) : Image :=
  mkImage m sz (replicate (Z.to_nat (snd sz)) (replicate (Z.to_nat (fst sz)) color)).

(** [Image.new(mode, size, color)] *)
Definition new (m : Mode) (sz : Z * Z) (color : Pixel) : result Image :=
  let '(w, h) := sz in
  if (w <? 0) || (h <? 0)
  then Raise (ValueError "Width and height must be >= 0")
  else Ok (solid m sz color).

(** Pixel access [px[x, y]]; outside the image it is an [IndexError]. *)
Definition getpixel (img : Image) (x y : Z) : option Pixel :=
  if (0 <=? x) && (x <? width img) && (0 <=? y) && (y <? height img)
  then row ← im img !! Z.to_nat y; row !! Z.to_nat x
  else None.

Definition load (img : Image) (x y : Z) : result Pixel :=
  match getpixel img x y with
  | Some p => Ok p
  | None => Raise IndexError
  end.

(** [img.getdata()]: the pixels in row-major order. *)
Definition getdata (img : Image) : list Pixel := concat (im img).

(** [img.putdata(data)]: overwrite the leading pixels, row by row. *)
Fixpoint put_rows (rows : list (list Pixel)) (data : list Pixel)
  : list (list Pixel) :=
  match rows with
  | [] => []
  | row :: rest =>
      (take (length row) data ++ drop (length data) row)
        :: put_rows rest (drop (length row) data)
  end.

Definition putdata (img : Image) (data : list Pixel) : Image :=
  mkImage (mode img) (size img) (put_rows (im img) data).

(** [img.crop((l, t, r, b))]: the window, transparent black outside the
    source. *)
Definition crop (img : Image) (box : Z * Z * Z * Z) : Image :=
  let '(l, t, r, b) := box in
  mkImage (mode img) (r - l, b - t)
    (map (fun y => map (fun x => default (0, 0, 0, 0) (getpixel img (l + x) (t + y)))
                     (range (r - l)))
         (range (b - t))).

(** [dst.paste(src, (ox, oy))] without a mask: the pixels of [src], seen
    in the mode of [dst], replace those of the overlap. *)
Definition paste (dst src : Image) (at_ : Z * Z) : Image :=
  let '(ox, oy) := at_ in
  let src' := convert (mode dst) src in
  mkImage (mode dst) (size dst)
    (imap (fun y row =>
             imap (fun x p => default p (getpixel src' (Z.of_nat x - ox) (Z.of_nat y - oy)))
                  row)
          (im dst)).

(** [dst.paste(src, (ox, oy), mask)]: in the overlap each pixel of [dst]
    is blended with the pixel of [src] according to the alpha band of
    [mask]; the blending arithmetic of the library is the parameter
    [blend]. *)
Definition paste_mask (blend : Pixel → Pixel → Z → Pixel)
           (dst src : Image) (at_ : Z * Z) (mask : Image) : Image :=
  let '(ox, oy) := at_ in
  let src' := convert (mode dst) src in
  mkImage (mode dst) (size dst)
    (imap (fun y row =>
             imap (fun x p =>
                     match getpixel src' (Z.of_nat x - ox) (Z.of_nat y - oy),
                           getpixel mask (Z.of_nat x - ox) (Z.of_nat y - oy) with
                     | Some q, Some (_, _, _, a) => blend p q a
                     | _, _ => p
                     end)
                  row)
          (im dst)).

(** [img.resize(size, filter)]: a request for the size the image already
    has returns a copy; a dimension below 1 is refused with a
    [ValueError]; otherwise the pixels come from the resampling filter,
    the parameter [kernel]. *)
Definition resize (kernel : Image → Z * Z → list (list Pixel))
           (img : Image) (sz : Z * Z) : result Image :=
  if bool_decide (size img = sz) then Ok img
  else if (fst sz <? 1) || (snd sz <? 1)
       then Raise (ValueError "height and width must be > 0")
       else Ok (mkImage (mode img) sz (kernel img sz)).

End PIL.
Import PIL.

(** ** Files and standard output *)

Module IO.

Inductive node : Type :=
| Directory
| PngFile (img : Image).

Record World : Type := mkWorld {
  fs : gmap string node;
  stdout : list string
}.

(** A script step: it may raise, and it changes the world either way. *)
Definition IO (A : Type) : Type := World → result A * World.

#[global] Instance IO_ret : MRet IO := fun _ a w => (Ok a, w).
#[global] Instance IO_bind : MBind IO := fun _ _ k m w =>
  match m w with
  | (Ok a, w') => k a w'
  | (Raise e, w') => (Raise e, w')
  end.

Definition lift {A : Type} (r : result A) : IO A := fun w => (r, w).

(** [os.path.exists(p)] and [Path.exists()] *)
Definition exists_ (p : string) : IO bool :=
  fun w => (Ok (bool_decide (is_Some (fs w !! p))), w).

(** [Image.open(p)] *)
Definition open (p : string) : IO Image :=
  fun w =>
    match fs w !! p with
    | Some (PngFile img) => (Ok img, w)
    | Some Directory => (Raise (IsADirectoryError p), w)
    | None => (Raise (FileNotFoundError p), w)
    end.

(** [img.save(p)]; the directory of [p] is taken to exist. *)
Definition save (img : Image) (p : string) : IO unit :=
  fun w => (Ok (), mkWorld (<[p := PngFile img]> (fs w)) (stdout w)).

(** [Path.mkdir(parents=True, exist_ok=True)] *)
Definition mkdir (p : string) : IO unit :=
  fun w =>
    match fs w !! p with
    | Some (PngFile _) => (Raise (FileExistsError p), w)
    | Some Directory => (Ok (), w)
    | None => (Ok (), mkWorld (<[p := Directory]> (fs w)) (stdout w))
    end.

Definition print (line : string) : IO unit :=
  fun w => (Ok (), mkWorld (fs w) (stdout w ++ [line])).

(** [for x in xs: body(x)] *)
Fixpoint for_each {A : Type} (xs : list A) (body : A → IO unit) : IO unit :=
  match xs with
  | [] => mret ()
  | x :: xs' => _ ← body x; for_each xs' body
  end.

(** [os.path.join(a, b)] and [a / b] on relative components. *)
Definition join (a b : string) : string := a +:+ "/" +:+ b.

(** [s] without the prefix [pre], when it has it. *)
Fixpoint strip_prefix (pre s : string) : option string :=
  match pre, s with
  | EmptyString, _ => Some s
  | String a pre', String b s' =>
      if Ascii.eqb a b then strip_prefix pre' s' else None
  | String _ _, EmptyString => None
  end.

(** [p.relative_to(base)] *)
Definition relative_to (p base : string) : result string :=
  match strip_prefix (base +:+ "/") p with
  | Some rel => Ok rel
  | None => Raise (ValueError "path is not in the subpath of base")
  end.

End IO.
Import IO.

(** ** scripts/generate_brand_assets.py *)

Module BrandAssets.

Definition _is_background_red (r g b : Z) : bool :=
  (200 <? r) && (g <? 90) && (b <? 90).

Record scan : Type := mkScan {
  left : Z; top : Z; right : Z; bottom : Z; found : bool
}.

(** The body of the inner loop of [_find_content_bbox]. *)
Definition visit (x y : Z) (p : Pixel) (s : scan) : scan :=
  let '(r, g, b, _) := p in
  if negb (_is_background_red r g b) then
    mkScan (if x <? left s then x else left s)
           (if y <? top s then y else top s)
           (if right s <? x then x else right s)
           (if bottom s <? y then y else bottom s)
           true
  else s.

Definition _find_content_bbox (img : Image) : result (Z * Z * Z * Z) :=
  let px := load (convert RGB img) in
  let '(w, h) := size img in
  s ← for_in (range h) (fun y s =>
        for_in (range w) (fun x s => p ← px x y; Ok (visit x y p s)) s)
        (mkScan w h 0 0 false);
  if negb (found s) then Ok (0, 0, w, h)
  else Ok (left s, top s, right s + 1, bottom s + 1).

(** [_square_crop], first step: the bounding box grown by [pad] on each
    side and clamped to the image. *)
Definition padded_box (sz : Z * Z) (bbox : Z * Z * Z * Z) (pad : Z)
  : Z * Z * Z * Z :=
  let '(w, h) := sz in
  let '(l, t, r, b) := bbox in
  let l := Z.max 0 (l - pad) in
  let t := Z.max 0 (t - pad) in
  let r := Z.min w (r + pad) in
  let b := Z.min h (b + pad) in
  (l, t, r, b).

(** The side [size] and the centre [(cx, cy)] of the window. *)
Definition crop_side (box : Z * Z * Z * Z) : Z :=
  let '(l, t, r, b) := box in
  let bw := r - l in
  let bh := b - t in
  Z.max bw bh.

Definition box_centre (box : Z * Z * Z * Z) : Z * Z :=
  let '(l, t, r, b) := box in
  let bw := r - l in
  let bh := b - t in
  (l + bw / 2, t + bh / 2).

(** The window handed to [img.crop]. *)
Definition square_window (sz : Z * Z) (bbox : Z * Z * Z * Z) (pad : Z)
  : Z * Z * Z * Z :=
  let '(w, h) := sz in
  let box := padded_box sz bbox pad in
  let size := crop_side box in
  let '(cx, cy) := box_centre box in
  let sl := Z.max 0 (cx - size / 2) in
  let st := Z.max 0 (cy - size / 2) in
  let sr := Z.min w (sl + size) in
  let sb := Z.min h (st + size) in
  (* Adjust if we hit an edge. *)
  let sl := Z.max 0 (sr - size) in
  let st := Z.max 0 (sb - size) in
  (sl, st, sr, sb).

Definition _square_crop (img : Image) (bbox : Z * Z * Z * Z) (pad : Z) : Image :=
  crop img (square_window (size img) bbox pad).

(** The per-pixel rule of [_make_transparent_foreground]. *)
Definition key (p : Pixel) : Pixel :=
  let '(r, g, b, a) := p in
  if _is_background_red r g b then (r, g, b, 0) else (r, g, b, a).

Definition _make_transparent_foreground (img : Image) : Image :=
  let rgba := convert RGBA img in
  let data := getdata rgba in
  let new := map key data in
  putdata rgba new.

(** [OutputSet] *)
Record OutputSet : Type := mkOutputSet { root : string }.

Definition images_dir (out : OutputSet) : string :=
  join (join (root out) "assets") "images".

Definition path (out : OutputSet) (name : string) : string :=
  join (images_dir out) name.

(** The first step of [generate_icons]: a source that is not square is
    pasted, centred, on a square canvas of the background colour. *)
Definition square_canvas (base : Image) : result Image :=
  if negb (width base =? height base) then
    let size := Z.max (width base) (height base) in
    square ← new RGB (size, size) (255, 42, 42, 255);
    Ok (paste square base ((size - width base) / 2, (size - height base) / 2))
  else Ok base.

Section Pipeline.

(** The resampling filter, and [convert('L').convert('RGBA')]. *)
Variable lanczos : Image → Z * Z → list (list Pixel).
Variable greyscale : Image → Image.

(** The script lives one level below the project root. *)
Variable PROJECT_ROOT : string.

Definition generate_icons (source_png : string) (out : OutputSet) : IO unit :=
  _ ← mkdir (images_dir out);
  base ← open source_png;
  base ← lift (square_canvas base);
  bbox ← lift (_find_content_bbox base);
  let cropped := _square_crop base bbox 80 in
  icon ← lift (resize lanczos cropped (1024, 1024));
  _ ← save icon (path out "app-icon.png");
  let fg := _make_transparent_foreground icon in
  _ ← save fg (path out "adaptive-foreground.png");
  let mono := greyscale icon in
  _ ← save mono (path out "adaptive-monochrome.png");
  favicon ← lift (resize lanczos icon (48, 48));
  save favicon (path out "favicon.png").

Definition src : string := "C:/Users/mzazimhenga/Downloads/1000373061.png".

Definition main : IO unit :=
  present ← exists_ src;
  if negb present then
    lift (Raise (SystemExit ("Missing source PNG: " +:+ src)))
  else
    for_each [PROJECT_ROOT; join PROJECT_ROOT "movieflixtv"] (fun root =>
      _ ← generate_icons src (mkOutputSet root);
      rel ← lift (relative_to (join (join root "assets") "images") PROJECT_ROOT);
      print ("Updated icon assets in " +:+ rel)).

End Pipeline.

End BrandAssets.
Import BrandAssets.

(** ** scripts/fix_adaptive_icon.py *)

Module AdaptiveIcon.

(** [int(canvas_size * 0.66)] *)
Definition safe_zone_size (canvas_size : Z) : result Z :=
  f ← int_mul_float canvas_size 0.66; int_of_float f.

(** The size that fits [content_size] and keeps the aspect ratio. *)
Definition fit_size (content_size : Z) (img : Image) : result (Z * Z) :=
  img_ratio ← truediv (width img) (height img);
  if (1 <? img_ratio)%float then
    let new_width := content_size in
    new_height ← (q ← int_div_float content_size img_ratio; int_of_float q);
    Ok (new_width, new_height)
  else
    let new_height := content_size in
    new_width ← (q ← int_mul_float content_size img_ratio; int_of_float q);
    Ok (new_width, new_height).

Section Imaging.

Variable lanczos : Image → Z * Z → list (list Pixel).
Variable blend : Pixel → Pixel → Z → Pixel.

(** [create_adaptive_foreground] between opening the source and saving
    the canvas. *)
Definition adaptive_foreground (img : Image) (canvas_size : Z) : result Image :=
  safe_zone_size ← safe_zone_size canvas_size;
  '(new_width, new_height) ← fit_size safe_zone_size img;
  img_resized ← resize lanczos img (new_width, new_height);
  canvas ← new RGBA (canvas_size, canvas_size) (0, 0, 0, 0);
  let x_offset := (canvas_size - new_width) / 2 in
  let y_offset := (canvas_size - new_height) / 2 in
  Ok (paste_mask blend canvas img_resized (x_offset, y_offset) img_resized).

Definition create_adaptive_foreground (input_path output_path : string)
           (canvas_size : Z) : IO unit :=
  img ← open input_path;
  canvas ← lift (adaptive_foreground (convert RGBA img) canvas_size);
  _ ← save canvas output_path;
  print ("Created: " +:+ output_path).

(** [create_app_icon] between opening the source and saving the canvas:
    the same steps with 90% of the canvas and an opaque red canvas. *)
Definition app_icon (img : Image) (size : Z) : result Image :=
  content_size ← (f ← int_mul_float size 0.90; int_of_float f);
  '(new_width, new_height) ← fit_size content_size img;
  img_resized ← resize lanczos img (new_width, new_height);
  canvas ← new RGBA (size, size) (229, 57, 53, 255);
  let x_offset := (size - new_width) / 2 in
  let y_offset := (size - new_height) / 2 in
  Ok (paste_mask blend canvas img_resized (x_offset, y_offset) img_resized).


(** The directory above the one of the script. *)
Variable base_dir : string.

Definition phone_assets : string := join (join base_dir "assets") "images".
Definition phone_icon : string := join phone_assets "app-icon.png".
Definition tv_assets : string :=
  join (join (join base_dir "movieflixtv") "assets") "images".
Definition tv_icon : string := join tv_assets "app-icon.png".

(** The body of the [__main__] guard. *)
Definition main : IO unit :=
  present ← exists_ phone_icon;
  _ ← (if present : bool then
         _ ← create_adaptive_foreground phone_icon
               (join phone_assets "adaptive-foreground.png") 1024;
         print "Phone adaptive foreground updated"
       else mret ());
  present ← exists_ tv_icon;
  _ ← (if present : bool then
         _ ← create_adaptive_foreground tv_icon
               (join tv_assets "adaptive-foreground.png") 1024;
         print "TV adaptive foreground updated"
       else mret ());
  _ ← print "
Done! The adaptive icons now have proper safe zone padding.";
  print "The icon content is scaled to fit within the inner 66% of the image.".

End Imaging.

End AdaptiveIcon.

(** ** scripts/generate_movies_splash.py *)

Module Splash.

Definition WIDTH : Z := 1242.
Definition HEIGHT : Z := 2688.

(** One component of [lerp]: [int(s + (e - s) * t)]. *)
Definition lerp1 (s e : Z) (t : float) : result Z :=
  d ← int_mul_float (e - s) t;
  f ← int_add_float s d;
  int_of_float f.

Definition lerp (start end_ : Z * Z * Z) (t : float) : result (Z * Z * Z) :=
  let '(s1, s2, s3) := start in
  let '(e1, e2, e3) := end_ in
  c1 ← lerp1 s1 e1 t; c2 ← lerp1 s2 e2 t; c3 ← lerp1 s3 e3 t;
  Ok (c1, c2, c3).

(** [draw.line([(x0, y), (x1, y)], fill)]: the pixels of row [y] between
    the two ends, both included, that lie on the canvas. *)
Definition draw_hline (canvas : Image) (x0 x1 y : Z) (fill : Pixel) : Image :=
  if (y <? 0) then canvas
  else
    mkImage (mode canvas) (size canvas)
      (alter (imap (fun x p =>
                      if (x0 <=? Z.of_nat x) && (Z.of_nat x <=? x1) then fill else p))
             (Z.to_nat y) (im canvas)).

Definition gradient_start : Z * Z * Z := (5, 6, 15).
Definition gradient_end : Z * Z * Z := (10, 11, 34).

(** The colour of row [y] of the gradient. *)
Definition row_color (y : Z) : result (Z * Z * Z) :=
  t ← truediv y HEIGHT; lerp gradient_start gradient_end t.

Definition base_canvas : result Image :=
  let start := gradient_start in
  canvas ← new RGBA (WIDTH, HEIGHT) (start, 255);
  for_in (range HEIGHT) (fun y canvas =>
      color ← row_color y;
      Ok (draw_hline canvas 0 WIDTH y (color, 255)))
    canvas.

(** *** Fonts

    The font type, [font_path.exists()], [ImageFont.truetype] (with [None]
    for the [OSError] the code catches), [ImageFont.load_default()] and
    [font.getlength] belong to the imaging library and the operating
    system and stay abstract. *)

Section Drawing.

Variable Font : Type.
Variable font_exists : string → bool.
Variable truetype : string → Z → option Font.
Variable load_default : Font.
Variable getlength : Font → string → float.

Definition weight_map : gmap string (list string) :=
  {[ "bold" := ["SegoeUI-Bold.ttf"; "Roboto-Bold.ttf"; "Arial Bold.ttf"];
     "semibold" := ["SegoeUI-Semibold.ttf"; "Roboto-Medium.ttf"; "Arial Bold.ttf"];
     "regular" := ["SegoeUI.ttf"; "Roboto-Regular.ttf"; "Arial.ttf"] ]}.

(** The loop of [get_font] over the candidate file names. *)
Fixpoint first_font (candidates : list string) (size : Z) : Font :=
  match candidates with
  | [] => load_default
  | name :: rest =>
      let font_path := join "C:/Windows/Fonts" name in
      if font_exists font_path then
        match truetype font_path size with
        | Some font => font
        | None => first_font rest size
        end
      else first_font rest size
  end.

Definition get_font (size : Z) (weight : string) : Font :=
  let candidates := default (weight_map !!! "regular") (weight_map !! weight) in
  first_font candidates size.

(** The dictionary [fonts] of [main]; its seven keys are fixed. *)
Record Fonts : Type := mkFonts {
  eyebrow : Font; hero : Font; meta : Font; chip : Font; body : Font;
  featureTitle : Font; cardTitle : Font
}.

(** *** Drawing

    Each drawing function is embedded as the sequence of calls it makes to
    the imaging library, in order; [render] replays them on the canvas. *)

Inductive Draw : Type :=
| Orb (center : Z * Z) (radius : Z) (fill : Pixel)
| RoundedRect (rect : Z * Z * Z * Z) (radius : Z) (fill : Pixel)
              (outline : option Pixel) (width : Z)
| Ellipse (box : Z * Z * Z * Z) (fill : Pixel)
| Text (xy : Z * Z) (text : string) (font : Font) (fill : Pixel).

Definition add_orb (center : Z * Z) (radius : Z) (fill : Pixel) : list Draw :=
  [Orb center radius fill].

(** [rounded_rect(target, rect, radius, fill, outline=None, width=1)] *)
Definition rounded_rect (rect : Z * Z * Z * Z) (radius : Z) (fill : Pixel)
           (outline : option Pixel) (width : Z) : list Draw :=
  [RoundedRect rect radius fill outline width].

Definition draw_header (fonts : Fonts) : list Draw :=
  let '(r0, r1, r2, r3) := (80, 220, WIDTH - 80, 540) in
  let dot_center := (r0 + 50, r1 + 80) in
  rounded_rect (r0, r1, r2, r3) 60 (30, 32, 55, 220) (Some (255, 255, 255, 40)) 3
  ++ [Ellipse (fst dot_center - 14, snd dot_center - 14,
               fst dot_center + 14, snd dot_center + 14) (229, 9, 20, 255);
      Text (r0 + 90, r1 + 60) "Tonight's picks" (eyebrow fonts) (220, 220, 230, 255);
      Text (r0 + 90, r1 + 120) "MovieFlix" (hero fonts) (255, 255, 255, 255)]
  ++ fst (foldl (fun '(drawn, icon_x) _ =>
                   (drawn ++ rounded_rect (icon_x - 70, r1 + 40, icon_x, r1 + 120) 26
                                          (229, 9, 20, 180) None 1,
                    icon_x - 90))
                ([], r2 - 70) (range 4)).

Definition draw_meta (fonts : Fonts) : list Draw :=
  let base_y := 580 in
  let pill_width := (WIDTH - 220) / 3 in
  concat (imap (fun index label =>
                  let left := 80 + Z.of_nat index * (pill_width + 10) in
                  rounded_rect (left, base_y, left + pill_width, base_y + 90) 50
                               (255, 255, 255, 35) (Some (255, 255, 255, 40)) 1
                  ++ [Text (left + 34, base_y + 28) label (meta fonts)
                           (255, 255, 255, 230)])
               ["68 trending"; "Glassy hero ready"; "Offline vault syncing"]).

(** The loop of [draw_genres] from position [x] on: the calls it makes,
    and how it ends ([int(text_width)] may raise, after the calls for the
    chips before it). *)
Fixpoint genre_chips (fonts : Fonts) (chips : list string) (x : Z)
  : list Draw * result unit :=
  match chips with
  | [] => ([], Ok ())
  | chip_ :: chips' =>
      let y := 720 in
      let text_width := getlength (chip fonts) chip_ in
      match int_of_float text_width with
      | Raise e => ([], Raise e)
      | Ok n =>
          let '(r0, r1, r2, r3) := (x, y + 60, x + n + 80, y + 130) in
          let color := if String.eqb chip_ "Spotlight"
                       then (229, 9, 20, 220) else (255, 255, 255, 40) in
          let '(later, outcome) := genre_chips fonts chips' (r2 + 20) in
          (rounded_rect (r0, r1, r2, r3) 60 color None 1
           ++ [Text (r0 + 32, r1 + 18) chip_ (chip fonts) (255, 255, 255, 255)]
           ++ later,
           outcome)
      end
  end.

Definition draw_genres (fonts : Fonts) : list Draw * result unit :=
  let chips := ["Spotlight"; "Thrillers"; "Glow Reels"; "Offline vault"; "Romance"] in
  let y := 720 in
  let '(calls, outcome) := genre_chips fonts chips 80 in
  (Text (80, y) "Browse by vibe" (eyebrow fonts) (210, 210, 220, 255) :: calls, outcome).

Definition draw_featured (fonts : Fonts) : list Draw :=
  let '(r0, r1, r2, r3) := (80, 930, WIDTH - 80, 1320) in
  let '(p0, p1, p2, p3) := (r0 + 40, r1 + 60, r0 + 220, r1 + 320) in
  rounded_rect (r0, r1, r2, r3) 60 (28, 10, 12, 200) (Some (255, 255, 255, 40)) 2
  ++ rounded_rect (p0, p1, p2, p3) 32 (80, 80, 80, 255) None 1
  ++ [Text (p2 + 40, p1) "Glow feed warming up" (featureTitle fonts)
           (255, 255, 255, 255);
      Text (p2 + 40, p1 + 90)
           "Syncing profiles, prepping stories, and polishing gradients."
           (body fonts) (220, 220, 230, 255)].

Definition draw_cards (fonts : Fonts) : list Draw :=
  let cards :=
    [("Trending flames", "68 cinematic drops curated tonight.");
     ("Watch parties", "Synced chats with glowing UI.");
     ("Offline vault", "Downloads stay cozy when signal drops.")] in
  fst (foldl (fun '(drawn, base_y) '(title, copy) =>
                let '(r0, r1, r2, r3) := (80, base_y, WIDTH - 80, base_y + 200) in
                (drawn
                 ++ rounded_rect (r0, r1, r2, r3) 40 (10, 10, 18, 200)
                                 (Some (255, 255, 255, 30)) 1
                 ++ [Text (r0 + 40, r1 + 40) title (cardTitle fonts) (255, 255, 255, 255);
                     Text (r0 + 40, r1 + 110) copy (body fonts) (210, 210, 220, 255)],
                 base_y + 230))
             ([], 1370) cards).

Definition draw_preview (fonts : Fonts) : list Draw :=
  let '(r0, r1, r2, r3) := (80, HEIGHT - 620, WIDTH - 80, HEIGHT - 340) in
  let '(p0, p1, p2, p3) := (r0 + 40, r1 + 40, r0 + 180, r1 + 220) in
  rounded_rect (r0, r1, r2, r3) 50 (8, 9, 20, 230) (Some (255, 255, 255, 25)) 1
  ++ rounded_rect (p0, p1, p2, p3) 28 (70, 70, 70, 255) None 1
  ++ [Text (p2 + 32, p1) "Offline vault ready" (cardTitle fonts) (255, 255, 255, 255);
      Text (p2 + 32, p1 + 80) "Your splash now mirrors the movies tab aesthetic."
           (body fonts) (215, 215, 225, 255)].

Definition draw_status (fonts : Fonts) : list Draw :=
  let '(r0, r1, r2, r3) := (130, HEIGHT - 260, WIDTH - 130, HEIGHT - 140) in
  rounded_rect (r0, r1, r2, r3) 60 (5, 6, 15, 230) (Some (255, 255, 255, 30)) 1
  ++ [Text (r0 + 40, r1 + 30) "Calibrating your cinema…" (body fonts)
           (255, 255, 255, 255);
      Text (r0 + 40, r1 + 90) "Matching the movies home gradient & layout."
           (meta fonts) (210, 210, 220, 255)].

(** What one library call does to the pixels of the canvas it draws on;
    the call may raise. *)
Variable paint : Draw → list (list Pixel) → result (list (list Pixel)).

(** The calls are made on the canvas in place, one after the other. *)
Definition render (calls : list Draw) (canvas : Image) : result Image :=
  for_in calls (fun call canvas =>
                  rows ← paint call (im canvas);
                  Ok (mkImage (mode canvas) (size canvas) rows))
         canvas.

Variable PROJECT_ROOT : string.

Definition OUTPUT_PATH : string :=
  join (join (join PROJECT_ROOT "assets") "images") "movies-splash.png".

(** [OUTPUT_PATH.parent] *)
Definition OUTPUT_DIR : string := join (join PROJECT_ROOT "assets") "images".

Definition main : IO unit :=
  let fonts :=
    mkFonts (get_font 32 "semibold") (get_font 70 "bold") (get_font 30 "regular")
            (get_font 32 "semibold") (get_font 34 "regular") (get_font 50 "bold")
            (get_font 42 "bold") in
  canvas ← lift base_canvas;
  canvas ← lift (render (add_orb (220, 240) 260 (125, 216, 255, 120)) canvas);
  canvas ← lift (render (add_orb (WIDTH - 160, HEIGHT - 260) 260 (95, 132, 255, 100))
                        canvas);
  canvas ← lift (render (draw_header fonts) canvas);
  canvas ← lift (render (draw_meta fonts) canvas);
  canvas ← lift (let '(calls, outcome) := draw_genres fonts in
                 canvas ← render calls canvas; _ ← outcome; Ok canvas);
  canvas ← lift (render (draw_featured fonts) canvas);
  canvas ← lift (render (draw_cards fonts) canvas);
  canvas ← lift (render (draw_preview fonts) canvas);
  canvas ← lift (render (draw_status fonts) canvas);
  _ ← mkdir OUTPUT_DIR;
  _ ← save canvas OUTPUT_PATH;
  rel ← lift (relative_to OUTPUT_PATH PROJECT_ROOT);
  print ("Created " +:+ rel).

End Drawing.

End Splash.

(** * Vocabulary of the statements *)

(** The bounding box [(l, t, r, b)] lies within the image. *)
Definition bbox_within (img : Image) (bbox : Z * Z * Z * Z) : Prop :=
  let '(l, t, r, b) := bbox in
  0 ≤ l ∧ l ≤ r ∧ r ≤ width img ∧ 0 ≤ t ∧ t ≤ b ∧ b ≤ height img.

(** Box [inner] lies inside box [outer]. *)
Definition box_inside (inner outer : Z * Z * Z * Z) : Prop :=
  let '(l, t, r, b) := inner in
  let '(ol, ot, or, ob) := outer in
  ol ≤ l ∧ r ≤ or ∧ ot ≤ t ∧ b ≤ ob.

(** What [square_window] does along one axis of extent [w], for the padded
    interval [lo, hi) and the side [side]. *)
Definition axis_window (w lo hi side : Z) : Z * Z :=
  let s0 := Z.max 0 (lo + (hi - lo) / 2 - side / 2) in
  let e := Z.min w (s0 + side) in
  (Z.max 0 (e - side), e).

(** The pixel at [(x, y)] exists and is not classified as background. *)
Definition foreground (img : Image) (x y : Z) : Prop :=
  ∃ r g b a, getpixel img x y = Some (r, g, b, a) ∧ _is_background_red r g b = false.

(** The state of the scan of [_find_content_bbox] once the pixels of [V]
    have been visited. *)
Definition scan_inv (img : Image) (V : Z → Z → Prop) (s : scan) : Prop :=
  if found s then
    (∀ x y, V x y → foreground img x y →
            left s ≤ x ∧ x ≤ right s ∧ top s ≤ y ∧ y ≤ bottom s) ∧
    (∃ y, V (left s) y ∧ foreground img (left s) y) ∧
    (∃ x, V x (top s) ∧ foreground img x (top s)) ∧
    (∃ y, V (right s) y ∧ foreground img (right s) y) ∧
    (∃ x, V x (bottom s) ∧ foreground img x (bottom s))
  else
    s = mkScan (width img) (height img) 0 0 false ∧
    ∀ x y, V x y → ¬ foreground img x y.

(** The pixels visited after [k] full rows and [j] pixels of row [k]. *)
Definition visited (img : Image) (k j : Z) (x y : Z) : Prop :=
  0 ≤ x < width img ∧ ((0 ≤ y < k) ∨ (y = k ∧ x < j)).

(** A 3 x 2 icon on the red background with one dark pixel at (1, 0). *)
Definition sample_icon : Image :=
  mkImage RGB (3, 2)
    [[(255, 42, 42, 255); (10, 20, 30, 255); (255, 42, 42, 255)];
     [(255, 42, 42, 255); (255, 42, 42, 255); (255, 42, 42, 255)]].


Definition in_box (box : Z * Z * Z * Z) (x y : Z) : Prop :=
  let '(l, t, r, b) := box in l ≤ x ∧ x < r ∧ t ≤ y ∧ y < b.



(** Sources for the adaptive-icon fixer: a 2000 x 1 and a 1 x 2000 strip,
    and a 6 x 6 icon that is opaque in its left column only. *)
Definition wide_strip : Image := solid RGBA (2000, 1) (10, 20, 30, 255).
Definition left_bar : Image :=
  mkImage RGBA (6, 6)
    (replicate 6 ((10, 20, 30, 255) :: replicate 5 (0, 0, 0, 0))).

(** Stand-ins for the two parameters of the imaging library: sampling of
    the nearest source pixel, and linear blending rounded to nearest
    (exact where the mask is 0 or 255). *)
Definition nearest (img : Image) (sz : Z * Z) : list (list Pixel) :=
  map (fun y => map (fun x => default (0, 0, 0, 0)
                                 (getpixel img (x * width img / fst sz)
                                               (y * height img / snd sz)))
                    (range (fst sz)))
      (range (snd sz)).

Definition blend_linear (p q : Pixel) (a : Z) : Pixel :=
  let mix u v := (u * (255 - a) + v * a + 127) / 255 in
  let '(r1, g1, b1, a1) := p in
  let '(r2, g2, b2, a2) := q in
  (mix r1 r2, mix g1 g2, mix b1 b2, mix a1 a2).



(** Component-wise order on colours, and the colour of row [y] of the
    splash gradient (defined for every [y]; the rows of the canvas are
    [0 .. HEIGHT - 1]). *)
Definition color_le (c c' : Z * Z * Z) : Prop :=
  let '(r, g, b) := c in
  let '(r', g', b') := c' in
  r ≤ r' ∧ g ≤ g' ∧ b ≤ b'.

Definition color_leb (c c' : Z * Z * Z) : bool :=
  let '(r, g, b) := c in
  let '(r', g', b') := c' in
  (r <=? r') && (g <=? g') && (b <=? b').

Definition gradient (y : Z) : Z * Z * Z :=
  match Splash.row_color y with
  | Ok c => c
  | Raise _ => Splash.gradient_start
  end.

(** Row by row: the colour is computed without exception, lies between the
    two ends of the gradient and does not decrease into the next row. *)
Definition gradient_row_ok (y : Z) : bool :=
  match Splash.row_color y with
  | Ok c =>
      color_leb Splash.gradient_start c && color_leb c Splash.gradient_end &&
      (if y + 1 <? Splash.HEIGHT then color_leb c (gradient (y + 1)) else true)
  | Raise _ => false
  end.

(** The two files written by the adaptive-icon fixer. *)
Definition phone_foreground (base_dir : string) : string :=
  join (AdaptiveIcon.phone_assets base_dir) "adaptive-foreground.png".
Definition tv_foreground (base_dir : string) : string :=
  join (AdaptiveIcon.tv_assets base_dir) "adaptive-foreground.png".

(** The lines printed between world [w] and the later world [w']. *)
Definition printed (w w' : World) : list string :=
  drop (length (stdout w)) (stdout w').


(** The size computed by [fit_size] for a [w] x [h] source is the exact
    aspect-preserving size, or one pixel less on the shorter side. *)
Definition fit_ok (c w h : Z) : bool :=
  match AdaptiveIcon.fit_size c (mkImage RGBA (w, h) []) with
  | Ok (nw, nh) =>
      if h <? w
      then (nw =? c) && (c * h / w - 1 <=? nh) && (nh <=? c * h / w)
      else (nh =? c) && (c * w / h - 1 <=? nw) && (nw <=? c * w / h)
  | Raise _ => false
  end.

(** The size computed by [fit_size] for a square source is the square of
    side [c]. *)
Definition fit_square (c n : Z) : bool :=
  match AdaptiveIcon.fit_size c (mkImage RGBA (n, n) []) with
  | Ok (nw, nh) => (nw =? c) && (nh =? c)
  | Raise _ => false
  end.


(** The boxes of the shapes among some drawing calls: rounded rectangles,
    ellipses, and the square an orb is composited on. *)
Definition boxes_of {Font : Type} (calls : list (Splash.Draw Font)) : list (Z * Z * Z * Z) :=
  omap (fun call =>
          match call with
          | Splash.RoundedRect _ rect _ _ _ _ => Some rect
          | Splash.Ellipse _ box _ => Some box
          | Splash.Orb _ (cx, cy) radius _ =>
              Some (cx - radius, cy - radius, cx + radius, cy + radius)
          | Splash.Text _ _ _ _ _ => None
          end) calls.

Definition anchors_of {Font : Type} (calls : list (Splash.Draw Font)) : list (Z * Z) :=
  omap (fun call =>
          match call with
          | Splash.Text _ xy _ _ _ => Some xy
          | _ => None
          end) calls.

(** A box that is not empty and lies on the splash canvas. *)
Definition on_canvas (box : Z * Z * Z * Z) : Prop :=
  let '(l, t, r, b) := box in
  0 ≤ l ∧ l < r ∧ r ≤ Splash.WIDTH ∧ 0 ≤ t ∧ t < b ∧ b ≤ Splash.HEIGHT.

Definition on_canvasb (box : Z * Z * Z * Z) : bool :=
  let '(l, t, r, b) := box in
  (0 <=? l) && (l <? r) && (r <=? Splash.WIDTH) &&
  (0 <=? t) && (t <? b) && (b <=? Splash.HEIGHT).

(** The rows between which some shapes lie. *)
Definition band (boxes : list (Z * Z * Z * Z)) : Z * Z :=
  (foldr (fun '(_, t, _, _) => Z.min t) Splash.HEIGHT boxes,
   foldr (fun '(_, _, _, b) => Z.max b) 0 boxes).

(** A row of chips from [x] on: each 70 rows high from row 780, at least
    80 wide, the next one 20 to the right of the one before. *)
Fixpoint chip_row (x : Z) (boxes : list (Z * Z * Z * Z)) : Prop :=
  match boxes with
  | [] => True
  | (l, t, r, b) :: rest =>
      l = x ∧ t = 780 ∧ b = 850 ∧ x + 80 ≤ r ∧ chip_row (r + 20) rest
  end.

(** The canvas that [Splash.main] has drawn when it reaches the point of
    saving it. *)
Definition splash_canvas (Font : Type) (font_exists : string → bool)
           (truetype : string → Z → option Font) (load_default : Font)
           (getlength : Font → string → float)
           (paint : Splash.Draw Font → list (list Pixel) → result (list (list Pixel)))
  : result Image :=
  let get_font := Splash.get_font Font font_exists truetype load_default in
  let render := Splash.render Font paint in
  let fonts :=
    Splash.mkFonts Font (get_font 32 "semibold") (get_font 70 "bold")
                   (get_font 30 "regular") (get_font 32 "semibold")
                   (get_font 34 "regular") (get_font 50 "bold") (get_font 42 "bold") in
  canvas ← Splash.base_canvas;
  canvas ← render (Splash.add_orb Font (220, 240) 260 (125, 216, 255, 120)) canvas;
  canvas ← render (Splash.add_orb Font (Splash.WIDTH - 160, Splash.HEIGHT - 260) 260
                                  (95, 132, 255, 100)) canvas;
  canvas ← render (Splash.draw_header Font fonts) canvas;
  canvas ← render (Splash.draw_meta Font fonts) canvas;
  canvas ← (let '(calls, outcome) := Splash.draw_genres Font getlength fonts in
            canvas ← render calls canvas; _ ← outcome; Ok canvas);
  canvas ← render (Splash.draw_featured Font fonts) canvas;
  canvas ← render (Splash.draw_cards Font fonts) canvas;
  canvas ← render (Splash.draw_preview Font fonts) canvas;
  render (Splash.draw_status Font fonts) canvas.

(** * Properties *)

(** ** The square crop *)

Ltac crop_arith := Z.to_euclidean_division_equations; lia.

Lemma square_window_axes w h l t r b pad :
  square_window (w, h) (l, t, r, b) pad =
  let '(pl, pt, pr, pb) := padded_box (w, h) (l, t, r, b) pad in
  let side := crop_side (pl, pt, pr, pb) in
  let sx := axis_window w pl pr side in
  let sy := axis_window h pt pb side in
  (fst sx, fst sy, snd sx, snd sy).
Proof. reflexivity. Qed.

Lemma padded_box_spec w h l t r b pad :
  0 ≤ l → l ≤ r → r ≤ w → 0 ≤ t → t ≤ b → b ≤ h → 0 ≤ pad →
  let '(pl, pt, pr, pb) := padded_box (w, h) (l, t, r, b) pad in
  (0 ≤ pl ∧ pl ≤ l ∧ pl = Z.max 0 (l - pad)) ∧
  (r ≤ pr ∧ pr ≤ w ∧ pr = Z.min w (r + pad)) ∧
  (0 ≤ pt ∧ pt ≤ t ∧ pt = Z.max 0 (t - pad)) ∧
  (b ≤ pb ∧ pb ≤ h ∧ pb = Z.min h (b + pad)).
Proof. intros. cbn. lia. Qed.

Section Axis.

Variables w lo hi side : Z.
Hypothesis Hlo : 0 ≤ lo.
Hypothesis Hhi : lo ≤ hi.
Hypothesis Hw : hi ≤ w.
Hypothesis Hside : hi - lo ≤ side.

Lemma axis_window_bounds :
  0 ≤ fst (axis_window w lo hi side) ∧
  fst (axis_window w lo hi side) ≤ snd (axis_window w lo hi side) ∧
  snd (axis_window w lo hi side) ≤ w.
Proof using Hlo Hhi Hw Hside. unfold axis_window; cbn. crop_arith. Qed.

Lemma axis_window_covers :
  fst (axis_window w lo hi side) ≤ lo ∧ hi ≤ snd (axis_window w lo hi side).
Proof using Hlo Hhi Hw Hside. unfold axis_window; cbn. crop_arith. Qed.

Lemma axis_window_extent :
  snd (axis_window w lo hi side) - fst (axis_window w lo hi side) = Z.min side w.
Proof using Hlo Hhi Hw Hside. unfold axis_window; cbn. crop_arith. Qed.

Lemma axis_window_shift :
  side ≤ w →
  fst (axis_window w lo hi side)
  = Z.max 0 (Z.min (lo + (hi - lo) / 2 - side / 2) (w - side)) ∧
  snd (axis_window w lo hi side) = fst (axis_window w lo hi side) + side.
Proof using Hlo Hhi Hw Hside. unfold axis_window; cbn. crop_arith. Qed.

End Axis.

Lemma crop_size img l t r b : size (crop img (l, t, r, b)) = (r - l, b - t).
Proof. reflexivity. Qed.

Lemma square_crop_size img bbox pad :
  size (_square_crop img bbox pad) =
  let '(sl, st, sr, sb) := square_window (size img) bbox pad in (sr - sl, sb - st).
Proof.
  unfold _square_crop. destruct (square_window _ _ _) as [[[sl st] sr] sb].
  apply crop_size.
Qed.

(** C1, as amended: for every image, every bounding box within it and
    every padding that is not negative, the window cropped by
    [_square_crop] lies within the image, the crop is [min side width]
    wide and [min side height] high, where [side] is the larger extent of
    the padded box; so its width equals its height whenever [side] fits
    both dimensions of the image, which is the case for every square
    image. *)
Theorem square_crop_square_within (img : Image) (bbox : Z * Z * Z * Z) (pad : Z) :
  bbox_within img bbox → 0 ≤ pad →
  let win := square_window (size img) bbox pad in
  let out := _square_crop img bbox pad in
  let side := crop_side (padded_box (size img) bbox pad) in
  box_inside win (0, 0, width img, height img) ∧
  (width out = Z.min side (width img) ∧ height out = Z.min side (height img)) ∧
  (side ≤ width img → side ≤ height img → width out = height out) ∧
  (width img = height img → width out = height out ∧ width out = side).
Proof.
  destruct bbox as [[[l t] r] b]. intros (Hl & Hlr & Hr & Ht & Htb & Hb) Hpad.
  cbv zeta. unfold width, height in *.
  rewrite square_crop_size.
  destruct (size img) as [w h]; cbn [fst snd] in *.
  rewrite square_window_axes.
  pose proof (padded_box_spec w h l t r b pad Hl Hlr Hr Ht Htb Hb Hpad) as Hbox.
  destruct (padded_box (w, h) (l, t, r, b) pad) as [[[pl pt] pr] pb].
  destruct Hbox as ((Hpl & Hpl' & _) & (Hpr & Hpr' & _) & (Hpt & Hpt' & _) & (Hpb & Hpb' & _)).
  cbv zeta. set (side := crop_side (pl, pt, pr, pb)).
  assert (pl ≤ pr) as Hx by lia. assert (pt ≤ pb) as Hy by lia.
  assert (pr - pl ≤ side ∧ pb - pt ≤ side) as [Hsx Hsy] by (subst side; cbn; lia).
  assert (side ≤ Z.max w h) by (subst side; cbn; lia).
  clearbody side.
  pose proof (axis_window_bounds w pl pr side Hpl Hx Hpr' Hsx) as Bx.
  pose proof (axis_window_bounds h pt pb side Hpt Hy Hpb' Hsy) as By.
  pose proof (axis_window_extent w pl pr side Hpl Hx Hpr' Hsx) as Ex.
  pose proof (axis_window_extent h pt pb side Hpt Hy Hpb' Hsy) as Ey.
  destruct (axis_window w pl pr side) as [sl sr], (axis_window h pt pb side) as [st sb].
  cbn [fst snd box_inside] in *.
  rewrite Ex, Ey. lia.
Qed.

(** The amended C1 at a square 4 x 4 image. *)
Lemma square_crop_square_within_witness :
  let img := solid RGB (4, 4) (255, 42, 42, 255) in
  let out := _square_crop img (1, 1, 2, 3) 1 in
  width out = height out ∧ width out = 4.
Proof.
  intros img out.
  destruct (square_crop_square_within img (1, 1, 2, 3) 1) as (_ & _ & _ & H).
  - unfold bbox_within, img; cbn. lia.
  - lia.
  - exact (H eq_refl).
Defined.

(** C1 as stated fails on a rectangular image: on a 4 x 2 image whose
    bounding box is the whole image, the crop is 4 wide and 2 high. *)
Lemma square_crop_not_square :
  let img := solid RGB (4, 2) (255, 42, 42, 255) in
  let out := _square_crop img (0, 0, 4, 2) 60 in
  bbox_within img (0, 0, 4, 2) ∧ width out = 4 ∧ height out = 2 ∧
  width out ≠ height out.
Proof. vm_compute. intuition discriminate. Qed.

(** C4: for every image, every bounding box within it and every padding
    that is not negative, the window cropped by [_square_crop] contains
    the padded bounding box clamped to the image, hence the whole padded
    box when that lies within the image; the window never extends past an
    edge of the image, and along an axis where the side fits it is the
    window centred on the padded box, moved inward by the least amount
    that brings it inside. *)
Theorem square_crop_contains_padded_box (img : Image) (l t r b pad : Z) :
  bbox_within img (l, t, r, b) → 0 ≤ pad →
  let w := width img in
  let h := height img in
  let box := padded_box (size img) (l, t, r, b) pad in
  let side := crop_side box in
  let '(cx, cy) := box_centre box in
  let '(sl, st, sr, sb) := square_window (size img) (l, t, r, b) pad in
  box_inside box (sl, st, sr, sb) ∧
  (box_inside (l - pad, t - pad, r + pad, b + pad) (0, 0, w, h) →
   box_inside (l - pad, t - pad, r + pad, b + pad) (sl, st, sr, sb)) ∧
  box_inside (sl, st, sr, sb) (0, 0, w, h) ∧
  (side ≤ w → sl = Z.max 0 (Z.min (cx - side / 2) (w - side)) ∧ sr = sl + side) ∧
  (side ≤ h → st = Z.max 0 (Z.min (cy - side / 2) (h - side)) ∧ sb = st + side).
Proof.
  intros (Hl & Hlr & Hr & Ht & Htb & Hb) Hpad.
  unfold width, height in *. destruct (size img) as [w h]; cbn [fst snd] in *.
  cbv zeta. rewrite square_window_axes.
  pose proof (padded_box_spec w h l t r b pad Hl Hlr Hr Ht Htb Hb Hpad) as Hbox.
  destruct (padded_box (w, h) (l, t, r, b) pad) as [[[pl pt] pr] pb].
  destruct Hbox as ((Hpl & Hpl' & El) & (Hpr & Hpr' & Er) & (Hpt & Hpt' & Et) & (Hpb & Hpb' & Eb)).
  cbv zeta. set (side := crop_side (pl, pt, pr, pb)).
  assert (pl ≤ pr) as Hx by lia. assert (pt ≤ pb) as Hy by lia.
  assert (pr - pl ≤ side ∧ pb - pt ≤ side) as [Hsx Hsy] by (subst side; cbn; lia).
  clearbody side.
  pose proof (axis_window_bounds w pl pr side Hpl Hx Hpr' Hsx) as Bx.
  pose proof (axis_window_bounds h pt pb side Hpt Hy Hpb' Hsy) as By.
  pose proof (axis_window_covers w pl pr side Hpl Hx Hpr' Hsx) as Cx.
  pose proof (axis_window_covers h pt pb side Hpt Hy Hpb' Hsy) as Cy.
  pose proof (axis_window_shift w pl pr side Hpl Hx Hpr' Hsx) as Sx.
  pose proof (axis_window_shift h pt pb side Hpt Hy Hpb' Hsy) as Sy.
  destruct (axis_window w pl pr side) as [sl sr], (axis_window h pt pb side) as [st sb].
  cbn [fst snd box_centre box_inside] in *.
  split; [tauto|]. split.
  { clear Sx Sy. intros (? & ? & ? & ?).
    assert (pl = l - pad) by lia. assert (pr = r + pad) by lia.
    assert (pt = t - pad) by lia. assert (pb = b + pad) by lia.
    clear El Er Et Eb. lia. }
  split; [clear Sx Sy El Er Et Eb; lia|]. split; assumption.
Qed.

(** C4 at a 10 x 10 image, the box (3, 3, 5, 6) and a padding of 2: the
    padded box (1, 1, 7, 8) lies in the image and in the window. *)
Lemma square_crop_contains_padded_box_witness :
  let img := solid RGB (10, 10) (255, 42, 42, 255) in
  square_window (size img) (3, 3, 5, 6) 2 = (1, 1, 8, 8) ∧
  box_inside (3 - 2, 3 - 2, 5 + 2, 6 + 2) (square_window (size img) (3, 3, 5, 6) 2).
Proof.
  intros img. split; [reflexivity|].
  destruct (square_crop_contains_padded_box img 3 3 5 6 2) as (_ & H & _).
  - unfold bbox_within, img; cbn. lia.
  - lia.
  - apply H. cbn. lia.
Defined.

(** ** Loops and pixel access *)

Lemma for_in_seqZ_inv {St : Type} (I : Z → St → Prop) (body : Z → St → result St)
      (k : nat) (m : Z) (s : St) :
  I m s →
  (∀ i s, m ≤ i < m + Z.of_nat k → I i s → ∃ s', body i s = Ok s' ∧ I (i + 1) s') →
  ∃ s', for_in (seqZ m (Z.of_nat k)) body s = Ok s' ∧ I (m + Z.of_nat k) s'.
Proof.
  revert m s. induction k as [|k IH]; intros m s Hm Hstep.
  - exists s. rewrite Z.add_0_r. done.
  - rewrite seqZ_cons by lia. cbn [for_in].
    destruct (Hstep m s) as (s1 & Hb & H1); [lia | done |].
    rewrite Hb. cbn.
    replace (Z.pred (Z.of_nat (S k))) with (Z.of_nat k) by lia.
    destruct (IH (Z.succ m) s1) as (s2 & Hf & H2).
    + by replace (Z.succ m) with (m + 1) by lia.
    + intros i s' Hi. apply Hstep. lia.
    + exists s2. split; [done|].
      by replace (m + Z.of_nat (S k)) with (Z.succ m + Z.of_nat k) by lia.
Qed.

(** The loop rule for [for i in range(n)]. *)
Lemma for_range_inv {St : Type} (I : Z → St → Prop) (body : Z → St → result St)
      (n : Z) (s : St) :
  0 ≤ n → I 0 s →
  (∀ i s, 0 ≤ i < n → I i s → ∃ s', body i s = Ok s' ∧ I (i + 1) s') →
  ∃ s', for_in (range n) body s = Ok s' ∧ I n s'.
Proof.
  intros Hn H0 Hstep. unfold range.
  destruct (for_in_seqZ_inv I body (Z.to_nat n) 0 s) as (s' & Hf & Hs'); [done | |].
  - intros i s' Hi. apply Hstep. lia.
  - rewrite Z2Nat.id in * by done. by exists s'.
Qed.

Lemma getpixel_in_range img x y p :
  getpixel img x y = Some p → 0 ≤ x < width img ∧ 0 ≤ y < height img.
Proof.
  unfold getpixel.
  destruct (0 <=? x) eqn:?, (x <? width img) eqn:?, (0 <=? y) eqn:?,
           (y <? height img) eqn:?; cbn; try discriminate.
  lia.
Qed.

Lemma getpixel_wf img x y :
  wf img → 0 ≤ x < width img → 0 ≤ y < height img → is_Some (getpixel img x y).
Proof.
  intros (Hw & Hh & Hlen & Hrows) Hx Hy. unfold getpixel.
  replace (0 <=? x) with true by lia. replace (x <? width img) with true by lia.
  replace (0 <=? y) with true by lia. replace (y <? height img) with true by lia.
  cbn. destruct (lookup_lt_is_Some_2 (im img) (Z.to_nat y)) as [row Hrow]; [lia|].
  rewrite Hrow. cbn. apply lookup_lt_is_Some_2.
  rewrite Forall_forall in Hrows. rewrite (Hrows row); [lia|].
  eapply list_elem_of_lookup_2; eauto.
Qed.

Lemma getpixel_map f m img x y :
  getpixel (mkImage m (size img) (map (map f) (im img))) x y = f <$> getpixel img x y.
Proof.
  unfold getpixel, width, height. cbn.
  destruct (_ && _); [|done].
  rewrite list_lookup_fmap. destruct (im img !! Z.to_nat y) as [row|]; [|done].
  cbn. by rewrite list_lookup_fmap.
Qed.

Lemma getpixel_convert_RGB img x y :
  getpixel (convert RGB img) x y = opaque <$> getpixel img x y.
Proof. unfold convert. destruct (mode img); apply getpixel_map. Qed.

(** ** The content bounding box *)

Section Scan.

Variable img : Image.

Lemma scan_inv_ext (V V' : Z → Z → Prop) s :
  (∀ x y, V' x y ↔ V x y) → scan_inv img V s → scan_inv img V' s.
Proof.
  intros HV. unfold scan_inv. destruct (found s).
  - intros (Hb & (yl & Hl & ?) & (xt & Ht & ?) & (yr & Hr & ?) & (xb & Hbt & ?)).
    split; [intros x y Hv; apply Hb; by apply HV|].
    repeat split; eexists; (split; [apply HV; eassumption | assumption]).
  - intros [-> Hno]. split; [done|]. intros x y Hv. apply Hno. by apply HV.
Qed.

(** One step of the inner loop. *)
Lemma visit_inv (V V' : Z → Z → Prop) x y p s :
  scan_inv img V s →
  getpixel img x y = Some p →
  (∀ x' y', V' x' y' ↔ V x' y' ∨ (x' = x ∧ y' = y)) →
  scan_inv img V' (visit x y (opaque p) s).
Proof.
  intros Hinv Hp HV. destruct p as [[[r g] b] a]. unfold visit; cbn [opaque].
  destruct (_is_background_red r g b) eqn:E; cbn [negb].
  - (* a background pixel: the state is kept *)
    assert (Hbg : ¬ foreground img x y).
    { intros (r' & g' & b' & a' & Hq & Hf). rewrite Hp in Hq. congruence. }
    unfold scan_inv in *. destruct (found s).
    + destruct Hinv as (Hb & (yl & Hl & ?) & (xt & Ht & ?) & (yr & Hr & ?) & (xb & Hbt & ?)).
      split.
      { intros x' y' Hv Hf. apply HV in Hv as [Hv | [-> ->]]; [eauto | done]. }
      repeat split; eexists; (split; [apply HV; left; eassumption | assumption]).
    + destruct Hinv as [-> Hno]. split; [done|].
      intros x' y' Hv. apply HV in Hv as [Hv | [-> ->]]; eauto.
  - (* a foreground pixel *)
    assert (Hfg : foreground img x y) by (by exists r, g, b, a).
    destruct (getpixel_in_range _ _ _ _ Hp) as [Hx Hy].
    assert (Hnew : V' x y) by (apply HV; by right).
    unfold scan_inv in *. cbn [found left top right bottom].
    destruct (found s).
    + destruct Hinv as (Hb & (yl & Hl & ?) & (xt & Ht & ?) & (yr & Hr & ?) & (xb & Hbt & ?)).
      split.
      { intros x' y' Hv Hf. apply HV in Hv as [Hv | [-> ->]].
        - specialize (Hb _ _ Hv Hf).
          destruct (Z.ltb_spec x (left s)), (Z.ltb_spec y (top s)),
            (Z.ltb_spec (right s) x), (Z.ltb_spec (bottom s) y); lia.
        - destruct (Z.ltb_spec x (left s)), (Z.ltb_spec y (top s)),
            (Z.ltb_spec (right s) x), (Z.ltb_spec (bottom s) y); lia. }
      split; [destruct (x <? left s); [exists y | exists yl]; split; auto; apply HV; auto|].
      split; [destruct (y <? top s); [exists x | exists xt]; split; auto; apply HV; auto|].
      split; [destruct (right s <? x); [exists y | exists yr]; split; auto; apply HV; auto|].
      destruct (bottom s <? y); [exists x | exists xb]; split; auto; apply HV; auto.
    + destruct Hinv as [-> Hno]. cbn [left top right bottom].
      replace (x <? width img) with true by lia.
      replace (y <? height img) with true by lia.
      assert ((if 0 <? x then x else 0) = x) as -> by (destruct (Z.ltb_spec 0 x); lia).
      assert ((if 0 <? y then y else 0) = y) as -> by (destruct (Z.ltb_spec 0 y); lia).
      split; [|repeat split; eexists; split; eassumption].
      intros x' y' Hv Hf. apply HV in Hv as [Hv | [-> ->]]; [|lia].
      by destruct (Hno _ _ Hv).
Qed.

Hypothesis Hwf : wf img.

(** The inner loop over one row. *)
Lemma scan_row (k : Z) (s : scan) :
  0 ≤ k < height img →
  scan_inv img (visited img k 0) s →
  ∃ s', for_in (range (width img))
          (fun x s => p ← load (convert RGB img) x k; Ok (visit x k p s)) s = Ok s'
        ∧ scan_inv img (visited img (k + 1) 0) s'.
Proof using Hwf.
  intros Hk Hs.
  destruct (for_range_inv (fun j s => scan_inv img (visited img k j) s)
              (fun x s => p ← load (convert RGB img) x k; Ok (visit x k p s))
              (width img) s) as (s' & Hf & Hs'); [apply Hwf | done | |].
  - intros j s0 Hj Hinv.
    destruct (getpixel_wf img j k Hwf Hj Hk) as [p Hp].
    unfold load. rewrite getpixel_convert_RGB, Hp. cbn.
    eexists; split; [done|]. eapply visit_inv; [done..|].
    intros x y. unfold visited. lia.
  - exists s'. split; [done|]. eapply scan_inv_ext; [|done].
    intros x y. unfold visited. lia.
Qed.

(** Both loops: every pixel of the image has been visited. *)
Lemma scan_image :
  ∃ s, for_in (range (height img)) (fun y s =>
         for_in (range (width img))
           (fun x s => p ← load (convert RGB img) x y; Ok (visit x y p s)) s)
         (mkScan (width img) (height img) 0 0 false) = Ok s
       ∧ scan_inv img (visited img (height img) 0) s.
Proof using Hwf.
  apply (for_range_inv (fun k s => scan_inv img (visited img k 0) s)); [apply Hwf | |].
  - split; [done|]. intros x y. unfold visited. lia.
  - intros k s Hk Hs. by apply scan_row.
Qed.

End Scan.

Lemma find_content_bbox_scan (img : Image) :
  wf img →
  ∃ s, scan_inv img (fun x y => 0 ≤ x < width img ∧ 0 ≤ y < height img) s ∧
       _find_content_bbox img
       = Ok (if negb (found s) then (0, 0, width img, height img)
             else (left s, top s, right s + 1, bottom s + 1)).
Proof.
  intros Hwf. destruct (scan_image img Hwf) as (s & Hloop & Hinv).
  exists s. split.
  - eapply scan_inv_ext; [|exact Hinv]. intros x y. unfold visited. lia.
  - unfold _find_content_bbox, width, height in *.
    destruct (size img) as [w h]. cbn [fst snd] in *. rewrite Hloop. cbn.
    by destruct (found s).
Qed.

Lemma foreground_in_range img x y :
  foreground img x y → 0 ≤ x < width img ∧ 0 ≤ y < height img.
Proof. intros (r & g & b & a & Hp & _). by eapply getpixel_in_range. Qed.

(** C2: on every well-formed image with a pixel that is not background,
    [_find_content_bbox] returns a box whose left and top are at most, and
    whose exclusive right and bottom exceed, the coordinates of every
    foreground pixel, and each of the four sides is attained by a
    foreground pixel; on an image without foreground pixel it returns
    [(0, 0, width, height)]. *)
Theorem find_content_bbox_minimal (img : Image) :
  wf img →
  ((∃ x y, foreground img x y) →
   ∃ l t r b,
     _find_content_bbox img = Ok (l, t, r, b) ∧
     (∀ x y, foreground img x y → l ≤ x ∧ x < r ∧ t ≤ y ∧ y < b) ∧
     (∃ y, foreground img l y) ∧ (∃ x, foreground img x t) ∧
     (∃ y, foreground img (r - 1) y) ∧ (∃ x, foreground img x (b - 1))) ∧
  ((∀ x y, ¬ foreground img x y) →
   _find_content_bbox img = Ok (0, 0, width img, height img)).
Proof.
  intros Hwf. destruct (find_content_bbox_scan img Hwf) as (s & Hinv & ->).
  unfold scan_inv in Hinv. destruct (found s); cbn [negb].
  - destruct Hinv as (Hb & (yl & _ & Hl) & (xt & _ & Ht) & (yr & _ & Hr) & (xb & _ & Hbt)).
    split.
    + intros _. exists (left s), (top s), (right s + 1), (bottom s + 1).
      split; [done|]. split.
      { intros x y Hf. specialize (Hb x y (foreground_in_range _ _ _ Hf) Hf). lia. }
      replace (right s + 1 - 1) with (right s) by lia.
      replace (bottom s + 1 - 1) with (bottom s) by lia.
      eauto 10.
    + intros Hno. by destruct (Hno _ _ Hl).
  - destruct Hinv as [_ Hno]. split; [|done].
    intros (x & y & Hf). destruct (Hno x y); [by apply foreground_in_range | done].
Qed.

Lemma sample_icon_wf : wf sample_icon.
Proof.
  unfold wf, sample_icon; cbn. repeat split; try lia.
  repeat constructor.
Qed.

(** C2 at [sample_icon]: the box is the single dark pixel. *)
Lemma find_content_bbox_minimal_witness :
  _find_content_bbox sample_icon = Ok (1, 0, 2, 1) ∧
  ∃ l t r b,
    _find_content_bbox sample_icon = Ok (l, t, r, b) ∧
    (∀ x y, foreground sample_icon x y → l ≤ x ∧ x < r ∧ t ≤ y ∧ y < b) ∧
    (∃ y, foreground sample_icon l y) ∧ (∃ x, foreground sample_icon x t) ∧
    (∃ y, foreground sample_icon (r - 1) y) ∧ (∃ x, foreground sample_icon x (b - 1)).
Proof.
  split; [reflexivity|].
  apply (find_content_bbox_minimal sample_icon sample_icon_wf).
  exists 1, 0, 10, 20, 30, 255. split; reflexivity.
Defined.

(** ** Chroma-keying *)

Lemma put_rows_map (f : Pixel → Pixel) (rows : list (list Pixel)) :
  put_rows rows (map f (concat rows)) = map (map f) rows.
Proof.
  induction rows as [|row rest IH]; [done|].
  cbn [put_rows concat map]. rewrite map_app.
  rewrite take_app_length' by (by rewrite length_map).
  rewrite drop_app_length' by (by rewrite length_map).
  rewrite IH, drop_ge; [by rewrite app_nil_r|].
  rewrite length_app, !length_map. lia.
Qed.

Lemma mode_convert m img : mode (convert m img) = m.
Proof. unfold convert. by destruct (mode img) eqn:E, m. Qed.

Lemma size_convert m img : size (convert m img) = size img.
Proof. unfold convert. by destruct (mode img), m. Qed.

Lemma width_convert m img : width (convert m img) = width img.
Proof. unfold width. by rewrite size_convert. Qed.

Lemma height_convert m img : height (convert m img) = height img.
Proof. unfold height. by rewrite size_convert. Qed.

Lemma convert_RGBA_id img : mode img = RGBA → convert RGBA img = img.
Proof. unfold convert. by intros ->. Qed.

Lemma make_transparent_foreground_rows (img : Image) :
  _make_transparent_foreground img
  = mkImage RGBA (size img) (map (map key) (im (convert RGBA img))).
Proof.
  unfold _make_transparent_foreground, putdata, getdata.
  by rewrite put_rows_map, mode_convert, size_convert.
Qed.

Lemma key_idempotent (p : Pixel) : key (key p) = key p.
Proof.
  destruct p as [[[r g] b] a]. unfold key.
  destruct (_is_background_red r g b) eqn:E; by rewrite E.
Qed.

(** C3: for every image, [_make_transparent_foreground] returns an image
    of the same dimensions whose pixels are, in image order, those of the
    RGBA view of the input with the keying rule applied: a pixel whose
    [(r, g, b)] is classified as background keeps them and gets alpha 0,
    every other pixel is unchanged, its alpha included.  For an input
    already in mode RGBA the view is the input itself. *)
Theorem make_transparent_foreground_spec (img : Image) :
  let out := _make_transparent_foreground img in
  size out = size img ∧
  getdata out = map key (getdata (convert RGBA img)) ∧
  (∀ x y r g b a,
     getpixel (convert RGBA img) x y = Some (r, g, b, a) →
     getpixel out x y
     = Some (if _is_background_red r g b then (r, g, b, 0) else (r, g, b, a))) ∧
  (∀ x y, getpixel (convert RGBA img) x y = None → getpixel out x y = None) ∧
  (mode img = RGBA → convert RGBA img = img).
Proof.
  cbv zeta. rewrite make_transparent_foreground_rows.
  split; [done|]. split.
  { unfold getdata; cbn [im]. induction (im (convert RGBA img)) as [|row rows IH]; [done|].
    cbn. by rewrite map_app, IH. }
  rewrite <- (size_convert RGBA img). split; [|split].
  - intros x y r g b a Hp. by rewrite getpixel_map, Hp.
  - intros x y Hp. by rewrite getpixel_map, Hp.
  - apply convert_RGBA_id.
Qed.

(** C3 at [sample_icon], seen as an RGBA image. *)
Lemma make_transparent_foreground_spec_witness :
  let img := convert RGBA sample_icon in
  getpixel (_make_transparent_foreground img) 0 0 = Some (255, 42, 42, 0) ∧
  getpixel (_make_transparent_foreground img) 1 0 = Some (10, 20, 30, 255).
Proof.
  intros img.
  destruct (make_transparent_foreground_spec img) as (_ & _ & H & _ & Hid).
  rewrite Hid in H by reflexivity.
  split; [exact (H 0 0 255 42 42 255 eq_refl) | exact (H 1 0 10 20 30 255 eq_refl)].
Defined.

(** C6: chroma-keying is idempotent: applying
    [_make_transparent_foreground] to its own output gives that output
    again, pixel for pixel. *)
Theorem make_transparent_foreground_idempotent (img : Image) :
  _make_transparent_foreground (_make_transparent_foreground img)
  = _make_transparent_foreground img.
Proof.
  rewrite (make_transparent_foreground_rows (_make_transparent_foreground img)).
  rewrite convert_RGBA_id by (by rewrite make_transparent_foreground_rows).
  rewrite make_transparent_foreground_rows. cbn [size im]. f_equal.
  rewrite map_map. apply map_ext. intros row.
  rewrite map_map. apply map_ext, key_idempotent.
Qed.

(** ** Normalisation to a square canvas *)

Lemma getpixel_lookup img x y :
  0 ≤ x < width img → 0 ≤ y < height img →
  getpixel img x y = (row ← im img !! Z.to_nat y; row !! Z.to_nat x).
Proof.
  intros Hx Hy. unfold getpixel.
  replace (0 <=? x) with true by lia. replace (x <? width img) with true by lia.
  replace (0 <=? y) with true by lia. by replace (y <? height img) with true by lia.
Qed.

Lemma getpixel_None img x y :
  ¬ (0 ≤ x < width img ∧ 0 ≤ y < height img) → getpixel img x y = None.
Proof.
  intros H. destruct (getpixel img x y) eqn:E; [|done].
  by apply getpixel_in_range in E.
Qed.


Lemma getpixel_solid m w h c x y :
  0 ≤ x < w → 0 ≤ y < h → getpixel (solid m (w, h) c) x y = Some c.
Proof.
  intros Hx Hy. rewrite getpixel_lookup by done. unfold solid; cbn.
  rewrite lookup_replicate_2 by lia. cbn. apply lookup_replicate_2. lia.
Qed.




Lemma getpixel_keyed img x y :
  getpixel (_make_transparent_foreground img) x y
  = key <$> getpixel (convert RGBA img) x y.
Proof.
  rewrite make_transparent_foreground_rows, <- (size_convert RGBA img).
  apply getpixel_map.
Qed.




(** ** The adaptive-icon fixer *)

Section AdaptiveIconFacts.

Import AdaptiveIcon.

Variable lanczos : Image → Z * Z → list (list Pixel).
Variable blend : Pixel → Pixel → Z → Pixel.

Lemma resize_size img sz resized :
  resize lanczos img sz = Ok resized → size resized = sz.
Proof.
  unfold resize. case_bool_decide as Hsz; [by intros [= <-]|].
  destruct (_ || _); [done|]. by intros [= <-].
Qed.

Lemma resize_ok img nw nh :
  1 ≤ nw → 1 ≤ nh → ∃ resized, resize lanczos img (nw, nh) = Ok resized.
Proof.
  intros Hw Hh. unfold resize. case_bool_decide; [by eexists|].
  cbn [fst snd]. replace (nw <? 1) with false by lia.
  replace (nh <? 1) with false by lia. by eexists.
Qed.


Lemma create_adaptive_foreground_run (w : World) inp outp source c :
  fs w !! inp = Some (PngFile source) →
  create_adaptive_foreground lanczos blend inp outp c w
  = match adaptive_foreground lanczos blend (convert RGBA source) c with
    | Ok out => (Ok (), mkWorld (<[outp := PngFile out]> (fs w))
                               (stdout w ++ ["Created: " +:+ outp]))
    | Raise e => (Raise e, w)
    end.
Proof.
  intros Hin. unfold create_adaptive_foreground, mbind, IO_bind, open, lift.
  rewrite Hin. by destruct (adaptive_foreground _ _ _ _).
Qed.

End AdaptiveIconFacts.




(** C10: on the 2000 x 1 source with the canvas of 1024 pixels the safe
    zone is 675 pixels and the target height [int(675 / 2000.0)] is 0,
    which the resize step refuses: [create_adaptive_foreground] raises and
    writes nothing, whatever the resampling filter and the blending. *)
Theorem adaptive_foreground_wide_source_fails
        (lanczos : Image → Z * Z → list (list Pixel))
        (blend : Pixel → Pixel → Z → Pixel) :
  AdaptiveIcon.safe_zone_size 1024 = Ok 675 ∧
  AdaptiveIcon.fit_size 675 wide_strip = Ok (675, 0) ∧
  AdaptiveIcon.adaptive_foreground lanczos blend wide_strip 1024
  = Raise (ValueError "height and width must be > 0") ∧
  (∀ (w : World) (input_path output_path : string),
     fs w !! input_path = Some (PngFile wide_strip) →
     AdaptiveIcon.create_adaptive_foreground lanczos blend input_path output_path 1024 w
     = (Raise (ValueError "height and width must be > 0"), w)).
Proof.
  assert (Hsafe : AdaptiveIcon.safe_zone_size 1024 = Ok 675) by (by vm_compute).
  assert (Hfit : AdaptiveIcon.fit_size 675 wide_strip = Ok (675, 0)) by (by vm_compute).
  assert (Hrun : AdaptiveIcon.adaptive_foreground lanczos blend wide_strip 1024
                 = Raise (ValueError "height and width must be > 0")).
  { by vm_compute. }
  repeat split; try done.
  intros w input_path output_path Hin.
  rewrite (create_adaptive_foreground_run _ _ _ _ _ wide_strip) by done.
  change (convert RGBA wide_strip) with wide_strip. by rewrite Hrun.
Qed.

(** C10 in a world that holds only the wide source. *)
Lemma adaptive_foreground_wide_source_fails_witness :
  let w := mkWorld {[ "app-icon.png" := PngFile wide_strip ]} [] in
  AdaptiveIcon.create_adaptive_foreground nearest blend_linear
    "app-icon.png" "adaptive-foreground.png" 1024 w
  = (Raise (ValueError "height and width must be > 0"), w).
Proof.
  intros w.
  destruct (adaptive_foreground_wide_source_fails nearest blend_linear) as (_ & _ & _ & H).
  apply H. reflexivity.
Defined.

(** ** The splash gradient *)

Lemma new_ok m w h c : 0 ≤ w → 0 ≤ h → new m (w, h) c = Ok (solid m (w, h) c).
Proof.
  intros Hw Hh. unfold new.
  replace (w <? 0) with false by lia. by replace (h <? 0) with false by lia.
Qed.

Lemma getpixel_draw_hline canvas x0 x1 y0 fill x y :
  getpixel (Splash.draw_hline canvas x0 x1 y0 fill) x y
  = (fun p => if (y =? y0) && (x0 <=? x) && (x <=? x1) then fill else p)
      <$> getpixel canvas x y.
Proof.
  destruct (decide (0 ≤ x < width canvas ∧ 0 ≤ y < height canvas)) as [[Hx Hy]|Hout].
  - unfold Splash.draw_hline. destruct (Z.ltb_spec y0 0) as [Hneg|Hpos].
    + replace (y =? y0) with false by lia. cbn [andb].
      by destruct (getpixel canvas x y).
    + rewrite (getpixel_lookup canvas), (getpixel_lookup (mkImage _ _ _)) by done.
      cbn [im]. rewrite list_lookup_alter.
      destruct (decide (Z.to_nat y0 = Z.to_nat y)) as [Heq|Hne].
      * replace (y =? y0) with true by lia. rewrite Heq.
        destruct (im canvas !! Z.to_nat y) as [row|]; [|done]. cbn.
        rewrite list_lookup_imap, Z2Nat.id by lia.
        by destruct (row !! Z.to_nat x).
      * replace (y =? y0) with false by lia. cbn [andb].
        destruct (im canvas !! Z.to_nat y) as [row|]; [|done]. cbn.
        by destruct (row !! Z.to_nat x).
  - rewrite (getpixel_None canvas) by done. apply getpixel_None.
    unfold Splash.draw_hline. by destruct (y0 <? 0).
Qed.

Lemma draw_hline_size canvas x0 x1 y0 fill :
  size (Splash.draw_hline canvas x0 x1 y0 fill) = size canvas.
Proof. unfold Splash.draw_hline. by destruct (y0 <? 0). Qed.

(** The loop of [base_canvas] on a canvas of any size, for any row
    colouring that does not raise. *)
Lemma gradient_loop (W H : Z) (color : Z → result (Z * Z * Z)) (c : Z → Z * Z * Z)
      (p0 : Pixel) :
  0 ≤ W → 0 ≤ H →
  (∀ y, 0 ≤ y < H → color y = Ok (c y)) →
  ∃ canvas,
    for_in (range H)
      (fun y canvas => col ← color y; Ok (Splash.draw_hline canvas 0 W y (col, 255)))
      (solid RGBA (W, H) p0) = Ok canvas ∧
    size canvas = (W, H) ∧
    ∀ x y, 0 ≤ x < W → 0 ≤ y < H → getpixel canvas x y = Some (c y, 255).
Proof.
  intros HW HH Hcolor.
  destruct (for_range_inv
              (fun k canvas =>
                 size canvas = (W, H) ∧
                 ∀ x y, 0 ≤ x < W → 0 ≤ y < H →
                        getpixel canvas x y = Some (if y <? k then (c y, 255) else p0))
              (fun y canvas => col ← color y; Ok (Splash.draw_hline canvas 0 W y (col, 255)))
              H (solid RGBA (W, H) p0)) as (canvas & Hrun & Hsz & Hpx); [done | | |].
  - split; [done|]. intros x y Hx Hy. rewrite getpixel_solid by done.
    by replace (y <? 0) with false by lia.
  - intros k canvas Hk [Hsz Hpx]. rewrite Hcolor by done. cbn.
    eexists; split; [done|]. split; [by rewrite draw_hline_size|].
    intros x y Hx Hy. rewrite getpixel_draw_hline, Hpx by done. cbn.
    destruct (Z.eqb_spec y k) as [->|Hne].
    + replace (0 <=? x) with true by lia. replace (x <=? W) with true by lia.
      by replace (k <? k + 1) with true by lia.
    + cbn [andb]. destruct (Z.ltb_spec y k), (Z.ltb_spec y (k + 1)); (done || lia).
  - exists canvas. split; [done|]. split; [done|].
    intros x y Hx Hy. rewrite Hpx by done. by replace (y <? H) with true by lia.
Qed.

Lemma gradient_rows_ok : forallb gradient_row_ok (range Splash.HEIGHT) = true.
Proof. by vm_compute. Qed.

Lemma gradient_row_ok_at y :
  0 ≤ y < Splash.HEIGHT → gradient_row_ok y = true.
Proof.
  intros Hy. pose proof gradient_rows_ok as H.
  rewrite forallb_forall in H. apply H, list_elem_of_In, elem_of_seqZ. lia.
Qed.

Lemma color_leb_le c c' : color_leb c c' = true → color_le c c'.
Proof.
  destruct c as [[r g] b], c' as [[r' g'] b']. unfold color_leb, color_le.
  rewrite !andb_true_iff. lia.
Qed.

Lemma row_color_gradient y :
  0 ≤ y < Splash.HEIGHT → Splash.row_color y = Ok (gradient y).
Proof.
  intros Hy%gradient_row_ok_at. unfold gradient_row_ok, gradient in *.
  by destruct (Splash.row_color y).
Qed.

Lemma gradient_bounds y :
  0 ≤ y < Splash.HEIGHT →
  color_le Splash.gradient_start (gradient y) ∧
  color_le (gradient y) Splash.gradient_end ∧
  (y + 1 < Splash.HEIGHT → color_le (gradient y) (gradient (y + 1))).
Proof.
  intros Hy. pose proof (gradient_row_ok_at y Hy) as Hok.
  unfold gradient_row_ok in Hok. rewrite (row_color_gradient y Hy) in Hok.
  apply andb_true_iff in Hok as [[H1 H2]%andb_true_iff H3].
  split; [by apply color_leb_le|]. split; [by apply color_leb_le|].
  intros Hnext. replace (y + 1 <? Splash.HEIGHT) with true in H3 by lia.
  by apply color_leb_le.
Qed.

(** C8: [base_canvas] returns a canvas of exactly 1242 x 2688 pixels
    whose row [y] is filled with the opaque colour
    [lerp((5, 6, 15), (10, 11, 34), y / HEIGHT)]; the top row is
    (5, 6, 15) and the bottom row (9, 10, 33), so they differ; every row
    colour lies between the two ends of the gradient and no component
    decreases from one row to the next. *)
Theorem base_canvas_gradient :
  ∃ canvas,
    Splash.base_canvas = Ok canvas ∧
    size canvas = (1242, 2688) ∧
    (∀ x y, 0 ≤ x < 1242 → 0 ≤ y < 2688 →
       ∃ color, Splash.row_color y = Ok color ∧
                getpixel canvas x y = Some (color, 255) ∧
                color_le (5, 6, 15) color ∧ color_le color (10, 11, 34)) ∧
    (∀ x, 0 ≤ x < 1242 →
       getpixel canvas x 0 = Some (5, 6, 15, 255) ∧
       getpixel canvas x 2687 = Some (9, 10, 33, 255) ∧
       getpixel canvas x 0 ≠ getpixel canvas x 2687) ∧
    (∀ y c c', 0 ≤ y → y + 1 < 2688 →
       Splash.row_color y = Ok c → Splash.row_color (y + 1) = Ok c' → color_le c c').
Proof.
  destruct (gradient_loop Splash.WIDTH Splash.HEIGHT Splash.row_color gradient
              (Splash.gradient_start, 255)) as (canvas & Hrun & Hsz & Hpx).
  { unfold Splash.WIDTH; lia. }
  { unfold Splash.HEIGHT; lia. }
  { apply row_color_gradient. }
  exists canvas. split.
  { unfold Splash.base_canvas.
    rewrite new_ok by (unfold Splash.WIDTH, Splash.HEIGHT; lia). exact Hrun. }
  split; [exact Hsz|]. split; [|split].
  - intros x y Hx Hy. exists (gradient y).
    destruct (gradient_bounds y Hy) as (Hlo & Hhi & _).
    split; [by apply row_color_gradient|]. split; [exact (Hpx x y Hx Hy)|].
    split; [exact Hlo | exact Hhi].
  - intros x Hx.
    assert (H0 : gradient 0 = (5, 6, 15)) by (vm_compute; reflexivity).
    assert (H1 : gradient 2687 = (9, 10, 33)) by (vm_compute; reflexivity).
    assert (Htop : 0 ≤ 0 < Splash.HEIGHT) by (unfold Splash.HEIGHT; lia).
    assert (Hbot : 0 ≤ 2687 < Splash.HEIGHT) by (unfold Splash.HEIGHT; lia).
    rewrite (Hpx x 0 Hx Htop), (Hpx x 2687 Hx Hbot), H0, H1.
    split; [reflexivity|]. split; [reflexivity|]. discriminate.
  - intros y c c' Hy Hy' Hc Hc'.
    assert (Hin : 0 ≤ y < Splash.HEIGHT) by (unfold Splash.HEIGHT; lia).
    assert (Hin' : 0 ≤ y + 1 < Splash.HEIGHT) by (unfold Splash.HEIGHT; lia).
    rewrite (row_color_gradient y Hin) in Hc.
    rewrite (row_color_gradient (y + 1) Hin') in Hc'.
    injection Hc as <-. injection Hc' as <-.
    destruct (gradient_bounds y Hin) as (_ & _ & Hnext).
    apply Hnext. unfold Splash.HEIGHT; lia.
Qed.

(** ** Missing source files *)

Lemma string_app_assoc (a b c : string) : (a +:+ b) +:+ c = a +:+ (b +:+ c).
Proof.
  induction a as [|x a IH]; [done|].
  change (String x ((a +:+ b) +:+ c) = String x (a +:+ (b +:+ c))). by rewrite IH.
Qed.

Lemma foregrounds_differ base_dir : phone_foreground base_dir ≠ tv_foreground base_dir.
Proof.
  unfold phone_foreground, tv_foreground, AdaptiveIcon.phone_assets,
    AdaptiveIcon.tv_assets, join.
  rewrite !string_app_assoc. intros H%(inj (String.app base_dir)). discriminate H.
Qed.

Lemma exists_missing (w : World) p : fs w !! p = None → exists_ p w = (Ok false, w).
Proof.
  intros H. unfold exists_. rewrite H.
  by rewrite bool_decide_eq_false_2 by (by intros [? ?]).
Qed.

Lemma exists_present (w : World) p n : fs w !! p = Some n → exists_ p w = (Ok true, w).
Proof.
  intros H. unfold exists_. rewrite H.
  by rewrite bool_decide_eq_true_2 by (by eexists).
Qed.

Lemma IO_bind_run {A B : Type} (m : IO A) (k : A → IO B) (w : World) :
  (m ≫= k) w = match m w with
               | (Ok a, w') => k a w'
               | (Raise e, w') => (Raise e, w')
               end.
Proof. reflexivity. Qed.

Lemma IO_ret_run {A : Type} (a : A) (w : World) : (mret a : IO A) w = (Ok a, w).
Proof. reflexivity. Qed.

Lemma print_run (line : string) (w : World) :
  print line w = (Ok (), mkWorld (fs w) (stdout w ++ [line])).
Proof. reflexivity. Qed.

Lemma printed_app (w : World) fs' lines :
  printed w (mkWorld fs' (stdout w ++ lines)) = lines.
Proof. unfold printed; cbn. by rewrite drop_app_length. Qed.

Lemma printed_refl (w : World) : printed w w = [].
Proof. unfold printed. by rewrite drop_all. Qed.

Section FixerFacts.

Variable lanczos : Image → Z * Z → list (list Pixel).
Variable blend : Pixel → Pixel → Z → Pixel.

(** A call of [create_adaptive_foreground] either raises and leaves the
    world as it is, or writes its output file and prints one line. *)
Lemma create_adaptive_foreground_effect (w : World) inp outp c :
  (∃ e, AdaptiveIcon.create_adaptive_foreground lanczos blend inp outp c w
        = (Raise e, w)) ∨
  (∃ out, AdaptiveIcon.create_adaptive_foreground lanczos blend inp outp c w
          = (Ok (), mkWorld (<[outp := PngFile out]> (fs w))
                            (stdout w ++ ["Created: " +:+ outp]))).
Proof.
  destruct (fs w !! inp) as [[|source]|] eqn:Hin.
  - left. eexists. unfold AdaptiveIcon.create_adaptive_foreground, mbind, IO_bind, open.
    by rewrite Hin.
  - rewrite (create_adaptive_foreground_run _ _ _ _ _ source) by done.
    destruct (AdaptiveIcon.adaptive_foreground _ _ _ _); eauto.
  - left. eexists. unfold AdaptiveIcon.create_adaptive_foreground, mbind, IO_bind, open.
    by rewrite Hin.
Qed.

Variable base_dir : string.

(** The fixer when neither icon exists: two closing lines, no file. *)
Lemma fixer_main_nothing (w : World) :
  fs w !! AdaptiveIcon.phone_icon base_dir = None →
  fs w !! AdaptiveIcon.tv_icon base_dir = None →
  AdaptiveIcon.main lanczos blend base_dir w
  = (Ok (), mkWorld (fs w)
              (stdout w ++ ["
Done! The adaptive icons now have proper safe zone padding.";
                 "The icon content is scaled to fit within the inner 66% of the image."])).
Proof.
  intros Hp Ht. unfold AdaptiveIcon.main.
  rewrite IO_bind_run, (exists_missing w _ Hp). cbv beta iota.
  rewrite IO_bind_run, IO_ret_run. cbv beta iota.
  rewrite IO_bind_run, (exists_missing w _ Ht). cbv beta iota.
  rewrite IO_bind_run, IO_ret_run. cbv beta iota.
  rewrite IO_bind_run, !print_run. cbn [fs stdout].
  by rewrite <- app_assoc.
Qed.

Ltac io_step :=
  first [rewrite IO_bind_run | rewrite IO_ret_run | rewrite print_run];
  cbv beta iota.

Ltac not_printed :=
  rewrite ?not_elem_of_cons; repeat split;
  first [ apply not_elem_of_nil
        | discriminate
        | intros H%(inj (String.app "Created: "));
          first [by apply foregrounds_differ in H
                | by symmetry in H; apply foregrounds_differ in H] ].

(** The fixer when the phone icon does not exist. *)
Lemma fixer_main_phone_missing (w : World) :
  fs w !! AdaptiveIcon.phone_icon base_dir = None →
  ∃ r w', AdaptiveIcon.main lanczos blend base_dir w = (r, w') ∧
          fs w' !! phone_foreground base_dir = fs w !! phone_foreground base_dir ∧
          (("Created: " +:+ phone_foreground base_dir) ∉ printed w w') ∧
          "Phone adaptive foreground updated" ∉ printed w w'.
Proof.
  intros Hp. destruct (fs w !! AdaptiveIcon.tv_icon base_dir) as [n|] eqn:Ht.
  - unfold AdaptiveIcon.main.
    rewrite IO_bind_run, (exists_missing w _ Hp). cbv beta iota.
    do 2 io_step. rewrite IO_bind_run, (exists_present w _ _ Ht). cbv beta iota.
    do 2 io_step.
    destruct (create_adaptive_foreground_effect w (AdaptiveIcon.tv_icon base_dir)
                (tv_foreground base_dir) 1024) as [[e He]|[out Ho]].
    + unfold tv_foreground in He. rewrite He. cbv beta iota.
      eexists _, _. split; [done|]. rewrite printed_refl.
      split; [done|]. split; apply not_elem_of_nil.
    + unfold tv_foreground in Ho. rewrite Ho. cbv beta iota.
      repeat io_step. cbn [fs stdout]. rewrite <- !app_assoc. cbn [app].
      eexists _, _. split; [done|]. rewrite printed_app. cbn [fs].
      split; [apply lookup_insert_ne; by intros H%symmetry%foregrounds_differ|].
      split; not_printed.
  - rewrite (fixer_main_nothing w Hp Ht). eexists _, _. split; [done|].
    rewrite printed_app. cbn [fs]. split; [done|]. split; not_printed.
Qed.

(** The fixer when the TV icon does not exist. *)
Lemma fixer_main_tv_missing (w : World) :
  fs w !! AdaptiveIcon.tv_icon base_dir = None →
  ∃ r w', AdaptiveIcon.main lanczos blend base_dir w = (r, w') ∧
          fs w' !! tv_foreground base_dir = fs w !! tv_foreground base_dir ∧
          (("Created: " +:+ tv_foreground base_dir) ∉ printed w w') ∧
          "TV adaptive foreground updated" ∉ printed w w'.
Proof.
  intros Ht. destruct (fs w !! AdaptiveIcon.phone_icon base_dir) as [n|] eqn:Hp.
  - unfold AdaptiveIcon.main.
    rewrite IO_bind_run, (exists_present w _ _ Hp). cbv beta iota.
    do 2 io_step.
    destruct (create_adaptive_foreground_effect w (AdaptiveIcon.phone_icon base_dir)
                (phone_foreground base_dir) 1024) as [[e He]|[out Ho]].
    + unfold phone_foreground in He. rewrite He. cbv beta iota.
      eexists _, _. split; [done|]. rewrite printed_refl.
      split; [done|]. split; apply not_elem_of_nil.
    + unfold phone_foreground in Ho. rewrite Ho. cbv beta iota.
      do 2 io_step. cbn [fs stdout]. rewrite exists_missing; cbv beta iota.
      2: { cbn [fs]. rewrite lookup_insert_ne; [done|].
           unfold AdaptiveIcon.tv_icon, AdaptiveIcon.phone_assets, AdaptiveIcon.tv_assets, join.
           rewrite !string_app_assoc. intros H%(inj (String.app base_dir)).
           discriminate H. }
      repeat io_step. cbn [fs stdout]. rewrite <- !app_assoc. cbn [app].
      eexists _, _. split; [done|]. rewrite printed_app. cbn [fs].
      split; [apply lookup_insert_ne, foregrounds_differ|].
      split; not_printed.
  - rewrite (fixer_main_nothing w Hp Ht). eexists _, _. split; [done|].
    rewrite printed_app. cbn [fs]. split; [done|]. split; not_printed.
Qed.

End FixerFacts.

Lemma brand_main_missing lanczos greyscale PROJECT_ROOT (w : World) :
  fs w !! BrandAssets.src = None →
  BrandAssets.main lanczos greyscale PROJECT_ROOT w
  = (Raise (SystemExit ("Missing source PNG: " +:+ BrandAssets.src)), w).
Proof.
  intros Hsrc. unfold BrandAssets.main.
  by rewrite IO_bind_run, (exists_missing w _ Hsrc).
Qed.

(** C9: the two scripts treat a missing source differently.  In the
    adaptive-icon fixer a target whose [app-icon.png] does not exist is
    skipped: its [adaptive-foreground.png] is left as it was and neither
    of its two messages is printed, whatever happens to the other target;
    with both icons missing the script only prints its two closing lines.
    The brand-asset generator raises [SystemExit] with the message
    "Missing source PNG: " followed by the path, and leaves the files and
    the output untouched. *)
Theorem missing_source_handling
        (lanczos : Image → Z * Z → list (list Pixel))
        (blend : Pixel → Pixel → Z → Pixel) (greyscale : Image → Image)
        (base_dir PROJECT_ROOT : string) (w : World) :
  (fs w !! AdaptiveIcon.phone_icon base_dir = None →
   ∃ r w', AdaptiveIcon.main lanczos blend base_dir w = (r, w') ∧
           fs w' !! phone_foreground base_dir = fs w !! phone_foreground base_dir ∧
           (("Created: " +:+ phone_foreground base_dir) ∉ printed w w') ∧
           "Phone adaptive foreground updated" ∉ printed w w') ∧
  (fs w !! AdaptiveIcon.tv_icon base_dir = None →
   ∃ r w', AdaptiveIcon.main lanczos blend base_dir w = (r, w') ∧
           fs w' !! tv_foreground base_dir = fs w !! tv_foreground base_dir ∧
           (("Created: " +:+ tv_foreground base_dir) ∉ printed w w') ∧
           "TV adaptive foreground updated" ∉ printed w w') ∧
  (fs w !! AdaptiveIcon.phone_icon base_dir = None →
   fs w !! AdaptiveIcon.tv_icon base_dir = None →
   ∃ w', AdaptiveIcon.main lanczos blend base_dir w = (Ok (), w') ∧
         fs w' = fs w ∧ length (printed w w') = 2%nat) ∧
  (fs w !! BrandAssets.src = None →
   BrandAssets.main lanczos greyscale PROJECT_ROOT w
   = (Raise (SystemExit ("Missing source PNG: " +:+ BrandAssets.src)), w)).
Proof.
  split; [apply fixer_main_phone_missing|].
  split; [apply fixer_main_tv_missing|].
  split; [|apply brand_main_missing].
  intros Hp Ht. rewrite (fixer_main_nothing lanczos blend base_dir w Hp Ht).
  eexists. split; [done|]. by rewrite printed_app.
Qed.

(** C9 in the empty world, where every source is missing. *)
Lemma missing_source_handling_witness :
  let w := mkWorld ∅ [] in
  (∃ w', AdaptiveIcon.main nearest blend_linear "/repo" w = (Ok (), w') ∧ fs w' = ∅) ∧
  BrandAssets.main nearest (fun img => img) "/repo" w
  = (Raise (SystemExit "Missing source PNG: C:/Users/mzazimhenga/Downloads/1000373061.png"), w).
Proof.
  intros w.
  destruct (missing_source_handling nearest blend_linear (fun img => img) "/repo" "/repo" w)
    as (_ & _ & Hfix & Hbrand).
  split.
  - destruct Hfix as (w' & Hrun & Hfs & _); [reflexivity | reflexivity |].
    by exists w'.
  - apply Hbrand. reflexivity.
Defined.


(** * Further properties of the brand-asset generator *)

(** ** The detected box and the crop *)

Lemma find_content_bbox_contains img l t r b :
  wf img → _find_content_bbox img = Ok (l, t, r, b) →
  ∀ x y, foreground img x y → in_box (l, t, r, b) x y.
Proof.
  intros Hwf Hbox x y Hf.
  destruct (find_content_bbox_scan img Hwf) as (s & Hinv & Hrun).
  rewrite Hrun in Hbox. unfold scan_inv in Hinv.
  pose proof (foreground_in_range _ _ _ Hf) as Hr.
  destruct (found s); cbn [negb] in Hbox.
  - destruct Hinv as (Hb & _). injection Hbox as <- <- <- <-.
    specialize (Hb x y Hr Hf). cbn. lia.
  - injection Hbox as <- <- <- <-. cbn. lia.
Qed.

Lemma find_content_bbox_bounds (img : Image) :
  wf img →
  ∃ l t r b,
    _find_content_bbox img = Ok (l, t, r, b) ∧
    bbox_within img (l, t, r, b) ∧
    ((∃ x y, foreground img x y) → l < r ∧ t < b).
Proof.
  intros Hwf. destruct (find_content_bbox_scan img Hwf) as (s & Hinv & ->).
  pose proof Hwf as (Hw & Hh & _).
  unfold scan_inv in Hinv. destruct (found s); cbn [negb].
  - destruct Hinv as (Hb & (yl & Vl & Hl) & (xt & Vt & Ht) & (yr & Vr & Hr) & (xb & Vb & Hbt)).
    pose proof (Hb _ _ Vr Hr). pose proof (Hb _ _ Vb Hbt).
    eexists _, _, _, _. split; [done|]. cbn. lia.
  - destruct Hinv as [_ Hno]. eexists _, _, _, _. split; [done|].
    split; [cbn; lia|]. intros (x & y & Hf).
    destruct (Hno x y); [by apply foreground_in_range | done].
Qed.

(** X1: the box returned by [_find_content_bbox] for a well-formed image
    always lies within the image, with [left ≤ right] and [top ≤ bottom];
    it is not empty when the image has a foreground pixel. *)
Theorem find_content_bbox_within (img : Image) :
  wf img →
  ∃ l t r b,
    _find_content_bbox img = Ok (l, t, r, b) ∧
    bbox_within img (l, t, r, b) ∧
    ((∃ x y, foreground img x y) → l < r ∧ t < b).
Proof. apply find_content_bbox_bounds. Qed.

Lemma find_content_bbox_within_witness :
  ∃ l t r b, _find_content_bbox sample_icon = Ok (l, t, r, b) ∧
             bbox_within sample_icon (l, t, r, b).
Proof.
  destruct (find_content_bbox_within sample_icon sample_icon_wf)
    as (l & t & r & b & H1 & H2 & _).
  by exists l, t, r, b.
Defined.

Lemma getpixel_crop img l t r b x y :
  0 ≤ x < r - l → 0 ≤ y < b - t →
  getpixel (crop img (l, t, r, b)) x y
  = Some (default (0, 0, 0, 0) (getpixel img (l + x) (t + y))).
Proof.
  intros Hx Hy. rewrite getpixel_lookup by (unfold width, height; cbn; lia).
  unfold crop, range; cbn. rewrite list_lookup_fmap.
  rewrite lookup_seqZ_lt by lia. cbn. rewrite list_lookup_fmap.
  rewrite lookup_seqZ_lt by lia. cbn. by rewrite !Z2Nat.id by lia.
Qed.

Lemma crop_wf img l t r b : l ≤ r → t ≤ b → wf (crop img (l, t, r, b)).
Proof.
  intros Hx Hy. unfold wf, crop, width, height, range; cbn.
  rewrite length_map, length_seqZ. repeat split; try lia.
  apply Forall_forall. intros row Hrow.
  apply list_elem_of_fmap in Hrow as (y & -> & _).
  by rewrite length_map, length_seqZ.
Qed.

(** The window of [_square_crop] around a box within the image: it covers
    the box and stays in the image. *)
Lemma square_window_covers w h l t r b pad :
  0 ≤ l → l ≤ r → r ≤ w → 0 ≤ t → t ≤ b → b ≤ h → 0 ≤ pad →
  let '(sl, st, sr, sb) := square_window (w, h) (l, t, r, b) pad in
  box_inside (l, t, r, b) (sl, st, sr, sb) ∧ box_inside (sl, st, sr, sb) (0, 0, w, h) ∧
  sl ≤ sr ∧ st ≤ sb.
Proof.
  intros Hl Hlr Hr Ht Htb Hb Hpad. rewrite square_window_axes.
  pose proof (padded_box_spec w h l t r b pad Hl Hlr Hr Ht Htb Hb Hpad) as Hbox.
  destruct (padded_box (w, h) (l, t, r, b) pad) as [[[pl pt] pr] pb].
  destruct Hbox as ((Hpl & Hpl' & _) & (Hpr & Hpr' & _) & (Hpt & Hpt' & _) & (Hpb & Hpb' & _)).
  cbv zeta. set (side := crop_side (pl, pt, pr, pb)).
  assert (pl ≤ pr) as Hx by lia. assert (pt ≤ pb) as Hy by lia.
  assert (pr - pl ≤ side ∧ pb - pt ≤ side) as [Hsx Hsy] by (subst side; cbn; lia).
  clearbody side.
  pose proof (axis_window_bounds w pl pr side Hpl Hx Hpr' Hsx) as Bx.
  pose proof (axis_window_bounds h pt pb side Hpt Hy Hpb' Hsy) as By.
  pose proof (axis_window_covers w pl pr side Hpl Hx Hpr' Hsx) as Cx.
  pose proof (axis_window_covers h pt pb side Hpt Hy Hpb' Hsy) as Cy.
  destruct (axis_window w pl pr side) as [sl sr], (axis_window h pt pb side) as [st sb].
  cbn [fst snd box_inside] in *. lia.
Qed.

(** X2: cropping loses no content: for every well-formed image, with the box
    that [_find_content_bbox] returns for it and any padding that is not
    negative, [_square_crop] is a well-formed image that shows the pixels
    of its window unchanged, and every foreground pixel of the image lies
    in the window, so it is a foreground pixel of the crop. *)
Theorem square_crop_keeps_foreground (img : Image) (bbox : Z * Z * Z * Z) (pad : Z) :
  wf img → 0 ≤ pad → _find_content_bbox img = Ok bbox →
  let '(sl, st, sr, sb) := square_window (size img) bbox pad in
  let out := _square_crop img bbox pad in
  wf out ∧
  (∀ x y, in_box (sl, st, sr, sb) x y →
          getpixel out (x - sl) (y - st) = getpixel img x y) ∧
  (∀ x y, foreground img x y →
          in_box (sl, st, sr, sb) x y ∧ foreground out (x - sl) (y - st)).
Proof.
  intros Hwf Hpad Hbox.
  destruct (find_content_bbox_bounds img Hwf) as (l & t & r & b & Hbox' & Hin & _).
  rewrite Hbox in Hbox'. injection Hbox' as ->.
  pose proof (find_content_bbox_contains img l t r b Hwf Hbox) as Hfg.
  destruct Hin as (Hl & Hlr & Hr & Ht & Htb & Hb).
  unfold _square_crop, width, height in *.
  destruct (size img) as [w h] eqn:Hsz; cbn [fst snd] in *.
  pose proof (square_window_covers w h l t r b pad Hl Hlr Hr Ht Htb Hb Hpad) as Hwin.
  destruct (square_window (w, h) (l, t, r, b) pad) as [[[sl st] sr] sb].
  destruct Hwin as (Hcov & Hins & Hx & Hy). cbn [box_inside] in *.
  assert (Hpx : ∀ x y, in_box (sl, st, sr, sb) x y →
                       getpixel (crop img (sl, st, sr, sb)) (x - sl) (y - st)
                       = getpixel img x y).
  { intros x y (? & ? & ? & ?). rewrite getpixel_crop by lia.
    replace (sl + (x - sl)) with x by lia. replace (st + (y - st)) with y by lia.
    destruct (getpixel_wf img x y Hwf) as [p ->]; [| |done];
      unfold width, height; rewrite Hsz; cbn; lia. }
  split; [by apply crop_wf|]. split; [exact Hpx|].
  intros x y Hf. pose proof (Hfg x y Hf) as (? & ? & ? & ?).
  assert (Hxy : in_box (sl, st, sr, sb) x y) by (cbn; lia).
  split; [done|]. destruct Hf as (r0 & g0 & b0 & a0 & Hp & Hc).
  exists r0, g0, b0, a0. by rewrite Hpx.
Qed.

Lemma square_crop_keeps_foreground_witness :
  foreground (_square_crop sample_icon (1, 0, 2, 1) 1) 1 0.
Proof.
  pose proof (square_crop_keeps_foreground sample_icon (1, 0, 2, 1) 1
                sample_icon_wf ltac:(lia) eq_refl) as H.
  destruct H as (_ & _ & H).
  destruct (H 1 0) as [_ Hf]; [|exact Hf].
  exists 10, 20, 30, 255. split; reflexivity.
Defined.

(** ** Detection after keying *)

Lemma for_in_ext {A St : Type} (xs : list A) (f g : A → St → result St) (s : St) :
  (∀ x s, f x s = g x s) → for_in xs f s = for_in xs g s.
Proof.
  intros Hfg. revert s. induction xs as [|x xs IH]; intros s; [done|].
  cbn. rewrite Hfg. destruct (g x s); cbn; [apply IH | done].
Qed.

Lemma getpixel_convert_RGBA img x y :
  opaque <$> getpixel (convert RGBA img) x y = opaque <$> getpixel img x y.
Proof.
  unfold convert. destruct (mode img); [|done].
  rewrite getpixel_map. destruct (getpixel img x y) as [[[[r g] b] a]|]; done.
Qed.

Lemma opaque_key p : opaque (key p) = opaque p.
Proof.
  destruct p as [[[r g] b] a]. unfold key.
  by destruct (_is_background_red r g b).
Qed.

(** X3: detection does not see the keying: [_find_content_bbox] returns
    the same result for [_make_transparent_foreground img] as for [img],
    for every image. *)
Theorem find_content_bbox_after_keying (img : Image) :
  _find_content_bbox (_make_transparent_foreground img) = _find_content_bbox img.
Proof.
  assert (Hpx : ∀ x y, load (convert RGB (_make_transparent_foreground img)) x y
                       = load (convert RGB img) x y).
  { intros x y. unfold load.
    rewrite !getpixel_convert_RGB, getpixel_keyed.
    rewrite <- (getpixel_convert_RGBA img x y).
    destruct (getpixel (convert RGBA img) x y) as [p|]; [|done].
    cbn. by rewrite opaque_key. }
  unfold _find_content_bbox.
  assert (Hsz : size (_make_transparent_foreground img) = size img)
    by (by rewrite make_transparent_foreground_rows).
  rewrite Hsz. destruct (size img) as [w h].
  erewrite for_in_ext; [done|].
  intros y s. apply for_in_ext. intros x s'. by rewrite Hpx.
Qed.

(** ** One run of [generate_icons] *)


Lemma mkdir_ok (w : World) p :
  (∀ img, fs w !! p ≠ Some (PngFile img)) →
  mkdir p w = (Ok (), mkWorld (<[p := Directory]> (fs w)) (stdout w)).
Proof.
  intros Hp. unfold mkdir. destruct (fs w !! p) as [[|img]|] eqn:E.
  - rewrite insert_id by done. by destruct w.
  - by destruct (Hp img).
  - done.
Qed.



Lemma lift_run {A : Type} (r : result A) (w : World) : lift r w = (r, w).
Proof. reflexivity. Qed.

Lemma save_run img p (w : World) :
  save img p w = (Ok (), mkWorld (<[p := PngFile img]> (fs w)) (stdout w)).
Proof. reflexivity. Qed.

Section GenerateIcons.

Variable lanczos : Image → Z * Z → list (list Pixel).
Variable greyscale : Image → Image.


End GenerateIcons.





(** ** The entry point *)


Lemma string_length_app (a t : string) :
  String.length (a +:+ t) = (String.length a + String.length t)%nat.
Proof.
  induction a as [|c a IH]; [done|].
  change (S (String.length (a +:+ t)) = S (String.length a + String.length t)).
  by rewrite IH.
Qed.




Lemma strip_prefix_app (a b c : string) :
  strip_prefix (a +:+ b) (a +:+ c) = strip_prefix b c.
Proof.
  induction a as [|x a IH]; [done|].
  change (strip_prefix (String x (a +:+ b)) (String x (a +:+ c)) = strip_prefix b c).
  cbn. by rewrite Ascii.eqb_refl.
Qed.

Lemma string_app_nil_r (a : string) : a +:+ "" = a.
Proof.
  induction a as [|x a IH]; [done|].
  change (String x (a +:+ "") = String x a). by rewrite IH.
Qed.

Lemma relative_to_join (base rel : string) :
  relative_to (join base rel) base = Ok rel.
Proof.
  unfold relative_to, join.
  rewrite <- (string_app_assoc base "/" rel).
  rewrite <- (string_app_nil_r (base +:+ "/")) at 1.
  rewrite strip_prefix_app. reflexivity.
Qed.



Section BrandMain.

Variable lanczos : Image → Z * Z → list (list Pixel).
Variable greyscale : Image → Image.
Variable PROJECT_ROOT : string.



End BrandMain.



Section BrandRerun.

Variable lanczos : Image → Z * Z → list (list Pixel).
Variable greyscale : Image → Image.
Variable PROJECT_ROOT : string.




End BrandRerun.




(** * Further properties of the adaptive-icon fixer *)


Lemma fit_size_by_size c img :
  AdaptiveIcon.fit_size c img
  = AdaptiveIcon.fit_size c (mkImage RGBA (width img, height img) []).
Proof. reflexivity. Qed.

Lemma fit_ok_small :
  forallb (fun w => forallb (fit_ok 675 w) (seqZ 1 100)) (seqZ 1 100) = true.
Proof. by vm_compute. Qed.

Lemma fit_square_all :
  forallb (fun n => fit_square 675 n && fit_square 921 n) (seqZ 1 4096) = true.
Proof. by vm_compute. Qed.

(** X7: the truncation in [fit_size], for the safe zone 675 and every
    source of 1..100 by 1..100 pixels: no exception; the longer side (the
    height when the sides are equal) becomes exactly 675, and the other
    side is the exact aspect-preserving size [675 * short / long] rounded
    down, or one pixel less than that (the float product may fall just
    short of an integer). *)
Theorem fit_size_small_sources (img : Image) :
  1 ≤ width img ≤ 100 → 1 ≤ height img ≤ 100 →
  ∃ new_width new_height,
    AdaptiveIcon.fit_size 675 img = Ok (new_width, new_height) ∧
    (height img < width img →
     new_width = 675 ∧
     675 * height img / width img - 1 ≤ new_height ≤ 675 * height img / width img) ∧
    (width img ≤ height img →
     new_height = 675 ∧
     675 * width img / height img - 1 ≤ new_width ≤ 675 * width img / height img).
Proof.
  intros Hw Hh. pose proof fit_ok_small as Hall.
  rewrite forallb_forall in Hall.
  specialize (Hall (width img)). rewrite forallb_forall in Hall.
  specialize (Hall ltac:(apply list_elem_of_In, elem_of_seqZ; lia) (height img)
                   ltac:(apply list_elem_of_In, elem_of_seqZ; lia)).
  unfold fit_ok in Hall. rewrite <- fit_size_by_size in Hall.
  destruct (AdaptiveIcon.fit_size 675 img) as [[nw nh]|]; [|done].
  exists nw, nh. split; [done|].
  destruct (Z.ltb_spec (height img) (width img)).
  - apply andb_true_iff in Hall as [[H1 H2]%andb_true_iff H3]. split; [lia|lia].
  - apply andb_true_iff in Hall as [[H1 H2]%andb_true_iff H3]. split; [lia|lia].
Qed.

Lemma fit_size_small_sources_witness :
  ∃ new_width new_height,
    AdaptiveIcon.fit_size 675 sample_icon = Ok (new_width, new_height) ∧
    (height sample_icon < width sample_icon →
     new_width = 675 ∧
     675 * height sample_icon / width sample_icon - 1 ≤ new_height
     ≤ 675 * height sample_icon / width sample_icon) ∧
    (width sample_icon ≤ height sample_icon →
     new_height = 675 ∧
     675 * width sample_icon / height sample_icon - 1 ≤ new_width
     ≤ 675 * width sample_icon / height sample_icon).
Proof. apply (fit_size_small_sources sample_icon); vm_compute; split; discriminate. Defined.

Lemma fit_size_square c img :
  (c = 675 ∨ c = 921) → width img = height img → 1 ≤ width img ≤ 4096 →
  AdaptiveIcon.fit_size c img = Ok (c, c).
Proof.
  intros Hc Heq Hn. pose proof fit_square_all as Hall.
  rewrite forallb_forall in Hall.
  specialize (Hall (width img) ltac:(apply list_elem_of_In, elem_of_seqZ; lia)).
  apply andb_true_iff in Hall as [H1 H2].
  rewrite fit_size_by_size, <- Heq.
  unfold fit_square in *.
  destruct Hc as [-> | ->].
  - destruct (AdaptiveIcon.fit_size 675 _) as [[nw nh]|]; [|done].
    apply andb_true_iff in H1. f_equal. f_equal; lia.
  - destruct (AdaptiveIcon.fit_size 921 _) as [[nw nh]|]; [|done].
    apply andb_true_iff in H2. f_equal. f_equal; lia.
Qed.

Section IconCanvas.

Variable lanczos : Image → Z * Z → list (list Pixel).
Variable blend : Pixel → Pixel → Z → Pixel.



Lemma adaptive_foreground_ok img c safe nw nh resized :
  0 ≤ c → AdaptiveIcon.safe_zone_size c = Ok safe → AdaptiveIcon.fit_size safe img = Ok (nw, nh) →
  resize lanczos img (nw, nh) = Ok resized →
  AdaptiveIcon.adaptive_foreground lanczos blend img c
  = Ok (paste_mask blend (solid RGBA (c, c) (0, 0, 0, 0)) resized
                   ((c - nw) / 2, (c - nh) / 2) resized).
Proof using Type.
  intros Hc Hsafe Hfit Hres. unfold AdaptiveIcon.adaptive_foreground.
  rewrite Hsafe. cbn. rewrite Hfit. cbn. rewrite Hres. cbn. unfold new.
  by replace (c <? 0) with false by lia.
Qed.

Lemma app_icon_ok img c content nw nh resized :
  0 ≤ c → (f ← int_mul_float c 0.90; int_of_float f) = Ok content →
  AdaptiveIcon.fit_size content img = Ok (nw, nh) →
  resize lanczos img (nw, nh) = Ok resized →
  AdaptiveIcon.app_icon lanczos blend img c
  = Ok (paste_mask blend (solid RGBA (c, c) (229, 57, 53, 255)) resized
                   ((c - nw) / 2, (c - nh) / 2) resized).
Proof using Type.
  intros Hc Hcontent Hfit Hres. unfold AdaptiveIcon.app_icon.
  rewrite Hcontent. cbn. rewrite Hfit. cbn. rewrite Hres. cbn. unfold new.
  by replace (c <? 0) with false by lia.
Qed.

End IconCanvas.



(** X9: on a square source of side 1..4096 both canvases of size 1024 are
    exact: the adaptive foreground holds the source resized to 675 x 675 at
    offset (174, 174) on a transparent canvas, the app icon holds it
    resized to 921 x 921 at offset (51, 51) on the red canvas. *)
Theorem square_icon_canvases
        (lanczos : Image → Z * Z → list (list Pixel))
        (blend : Pixel → Pixel → Z → Pixel) (img : Image) :
  width img = height img → 1 ≤ width img ≤ 4096 →
  (∃ resized,
     resize lanczos img (675, 675) = Ok resized ∧ size resized = (675, 675) ∧
     AdaptiveIcon.adaptive_foreground lanczos blend img 1024
     = Ok (paste_mask blend (solid RGBA (1024, 1024) (0, 0, 0, 0)) resized
                      (174, 174) resized)) ∧
  (∃ resized,
     resize lanczos img (921, 921) = Ok resized ∧ size resized = (921, 921) ∧
     AdaptiveIcon.app_icon lanczos blend img 1024
     = Ok (paste_mask blend (solid RGBA (1024, 1024) (229, 57, 53, 255)) resized
                      (51, 51) resized)).
Proof.
  intros Hsq Hn. split.
  - destruct (resize_ok lanczos img 675 675) as [resized Hres]; [lia..|].
    exists resized. split; [done|]. split; [by apply (resize_size lanczos _ _ _ Hres)|].
    assert (Hsafe : AdaptiveIcon.safe_zone_size 1024 = Ok 675) by (vm_compute; reflexivity).
    assert (Hfit : AdaptiveIcon.fit_size 675 img = Ok (675, 675)) by (apply fit_size_square; auto).
    pose proof (adaptive_foreground_ok lanczos blend img 1024 675 675 675 resized
                  ltac:(lia) Hsafe Hfit Hres) as Hrun.
    change ((1024 - 675) / 2) with 174 in Hrun. exact Hrun.
  - destruct (resize_ok lanczos img 921 921) as [resized Hres]; [lia..|].
    exists resized. split; [done|]. split; [by apply (resize_size lanczos _ _ _ Hres)|].
    assert (Hcontent : (f ← int_mul_float 1024 0.90; int_of_float f) = Ok 921)
      by (vm_compute; reflexivity).
    assert (Hfit : AdaptiveIcon.fit_size 921 img = Ok (921, 921)) by (apply fit_size_square; auto).
    pose proof (app_icon_ok lanczos blend img 1024 921 921 921 resized
                  ltac:(lia) Hcontent Hfit Hres) as Hrun.
    change ((1024 - 921) / 2) with 51 in Hrun. exact Hrun.
Qed.

Lemma square_icon_canvases_witness :
  (∃ resized,
     resize nearest left_bar (675, 675) = Ok resized ∧ size resized = (675, 675) ∧
     AdaptiveIcon.adaptive_foreground nearest blend_linear left_bar 1024
     = Ok (paste_mask blend_linear (solid RGBA (1024, 1024) (0, 0, 0, 0)) resized
                      (174, 174) resized)) ∧
  (∃ resized,
     resize nearest left_bar (921, 921) = Ok resized ∧ size resized = (921, 921) ∧
     AdaptiveIcon.app_icon nearest blend_linear left_bar 1024
     = Ok (paste_mask blend_linear (solid RGBA (1024, 1024) (229, 57, 53, 255)) resized
                      (51, 51) resized)).
Proof. apply (square_icon_canvases nearest blend_linear left_bar); [reflexivity | by vm_compute]. Defined.

Section FixerRuns.

Variable lanczos : Image → Z * Z → list (list Pixel).
Variable blend : Pixel → Pixel → Z → Pixel.
Variable base_dir : string.

Lemma tv_icon_not_phone_foreground :
  AdaptiveIcon.tv_icon base_dir ≠ phone_foreground base_dir.
Proof using Type.
  unfold AdaptiveIcon.tv_icon, phone_foreground, AdaptiveIcon.phone_assets, AdaptiveIcon.tv_assets, join.
  rewrite !string_app_assoc. intros H%(inj (String.app base_dir)). discriminate H.
Qed.

Lemma icons_not_foregrounds :
  AdaptiveIcon.phone_icon base_dir ≠ phone_foreground base_dir ∧
  AdaptiveIcon.phone_icon base_dir ≠ tv_foreground base_dir ∧
  AdaptiveIcon.tv_icon base_dir ≠ tv_foreground base_dir.
Proof using Type.
  unfold AdaptiveIcon.phone_icon, AdaptiveIcon.tv_icon, phone_foreground, tv_foreground, AdaptiveIcon.phone_assets, AdaptiveIcon.tv_assets, join.
  rewrite !string_app_assoc.
  repeat split; intros H%(inj (String.app base_dir)); discriminate H.
Qed.

(** The second half of the entry point: the TV target and the closing
    lines. *)
Lemma fixer_tail_effect (w : World) :
  ∃ r w',
    (present ← exists_ (AdaptiveIcon.tv_icon base_dir);
     _ ← (if present : bool then
            _ ← AdaptiveIcon.create_adaptive_foreground lanczos blend (AdaptiveIcon.tv_icon base_dir)
                  (join (AdaptiveIcon.tv_assets base_dir) "adaptive-foreground.png") 1024;
            print "TV adaptive foreground updated"
          else mret ());
     _ ← print "
Done! The adaptive icons now have proper safe zone padding.";
     print "The icon content is scaled to fit within the inner 66% of the image.") w
    = (r, w') ∧
    (fs w' = fs w ∨ ∃ out, fs w' = <[tv_foreground base_dir := PngFile out]> (fs w)).
Proof using Type.
  destruct (fs w !! AdaptiveIcon.tv_icon base_dir) as [n|] eqn:Ht.
  - rewrite IO_bind_run, (exists_present w _ _ Ht). cbv beta iota.
    rewrite 2!IO_bind_run.
    destruct (create_adaptive_foreground_effect lanczos blend w (AdaptiveIcon.tv_icon base_dir)
                (tv_foreground base_dir) 1024) as [[e He]|[out Ho]].
    + unfold tv_foreground in He. rewrite He. cbv beta iota. eauto.
    + unfold tv_foreground in Ho. rewrite Ho. cbv beta iota.
      rewrite print_run. cbv beta iota. rewrite IO_bind_run, !print_run. cbn [fs stdout].
      eexists _, _. split; [done|]. cbn [fs]. right. by exists out.
  - rewrite IO_bind_run, (exists_missing w _ Ht). cbv beta iota.
    rewrite IO_bind_run, IO_ret_run. cbv beta iota.
    rewrite IO_bind_run, !print_run. cbn [fs stdout]. eauto.
Qed.

Lemma fixer_main_effect (w : World) :
  ∃ r w',
    AdaptiveIcon.main lanczos blend base_dir w = (r, w') ∧
    ∀ p, p ≠ phone_foreground base_dir → p ≠ tv_foreground base_dir →
         fs w' !! p = fs w !! p.
Proof using Type.
  unfold AdaptiveIcon.main.
  destruct (fs w !! AdaptiveIcon.phone_icon base_dir) as [n|] eqn:Hp.
  - rewrite IO_bind_run, (exists_present w _ _ Hp). cbv beta iota.
    rewrite 2!IO_bind_run.
    destruct (create_adaptive_foreground_effect lanczos blend w (AdaptiveIcon.phone_icon base_dir)
                (phone_foreground base_dir) 1024) as [[e He]|[out Ho]].
    + unfold phone_foreground in He. rewrite He. cbv beta iota. eauto.
    + unfold phone_foreground in Ho. rewrite Ho. cbv beta iota.
      rewrite print_run. cbv beta iota.
      match goal with |- context [?t ?w1 = _] =>
        match type of w1 with World =>
          destruct (fixer_tail_effect w1) as (r & w' & Hrun & Hfs)
        end end.
      rewrite Hrun. exists r, w'. split; [done|]. intros p Hp1 Hp2.
      destruct Hfs as [->|[out' ->]]; cbn [fs];
        rewrite ?lookup_insert_ne by done; done.
  - rewrite IO_bind_run, (exists_missing w _ Hp). cbv beta iota.
    rewrite IO_bind_run, IO_ret_run. cbv beta iota.
    destruct (fixer_tail_effect w) as (r & w' & Hrun & Hfs).
    rewrite Hrun. exists r, w'. split; [done|]. intros p Hp1 Hp2.
    destruct Hfs as [->|[out' ->]]; rewrite ?lookup_insert_ne by done; done.
Qed.

End FixerRuns.

(** X10: whatever the file system holds and however the run ends, the entry
    point of the fixer changes no path other than the two
    [adaptive-foreground.png] files; in particular the two [app-icon.png]
    sources are never overwritten. *)
Theorem fixer_main_touches_only_foregrounds
        (lanczos : Image → Z * Z → list (list Pixel))
        (blend : Pixel → Pixel → Z → Pixel) (base_dir : string) (w : World) :
  ∃ r w',
    AdaptiveIcon.main lanczos blend base_dir w = (r, w') ∧
    (∀ p, p ≠ phone_foreground base_dir → p ≠ tv_foreground base_dir →
          fs w' !! p = fs w !! p) ∧
    fs w' !! AdaptiveIcon.phone_icon base_dir = fs w !! AdaptiveIcon.phone_icon base_dir ∧
    fs w' !! AdaptiveIcon.tv_icon base_dir = fs w !! AdaptiveIcon.tv_icon base_dir.
Proof.
  destruct (fixer_main_effect lanczos blend base_dir w) as (r & w' & Hrun & Hframe).
  destruct (icons_not_foregrounds base_dir) as (H1 & H2 & H3).
  exists r, w'. split; [done|]. split; [done|].
  split; apply Hframe; try done. apply tv_icon_not_phone_foreground.
Qed.

(** X11: an exception in the phone target ends the run: when the phone icon
    exists and composing its foreground raises, [main] raises the same
    exception and leaves the world as it was: nothing written, nothing
    printed, and the TV target is not attempted. *)
Theorem fixer_main_aborts
        (lanczos : Image → Z * Z → list (list Pixel))
        (blend : Pixel → Pixel → Z → Pixel) (base_dir : string) (w : World)
        (source : Image) (e : exn) :
  fs w !! AdaptiveIcon.phone_icon base_dir = Some (PngFile source) →
  AdaptiveIcon.adaptive_foreground lanczos blend (convert RGBA source) 1024 = Raise e →
  AdaptiveIcon.main lanczos blend base_dir w = (Raise e, w).
Proof.
  intros Hp He. unfold AdaptiveIcon.main.
  rewrite IO_bind_run, (exists_present w _ _ Hp). cbv beta iota.
  rewrite 2!IO_bind_run.
  rewrite (create_adaptive_foreground_run lanczos blend w _ _ source) by done.
  by rewrite He.
Qed.

Lemma fixer_main_aborts_witness :
  let w := mkWorld {[ "/repo/assets/images/app-icon.png" := PngFile wide_strip;
                      "/repo/movieflixtv/assets/images/app-icon.png" := PngFile left_bar ]} [] in
  AdaptiveIcon.main nearest blend_linear "/repo" w
  = (Raise (ValueError "height and width must be > 0"), w).
Proof.
  intros w.
  apply (fixer_main_aborts nearest blend_linear "/repo" w wide_strip).
  - reflexivity.
  - by vm_compute.
Defined.

(** The full run on two square icons. *)
Lemma fixer_main_run
        (lanczos : Image → Z * Z → list (list Pixel))
        (blend : Pixel → Pixel → Z → Pixel) (base_dir : string) (w : World)
        (phone tv : Image) :
  fs w !! AdaptiveIcon.phone_icon base_dir = Some (PngFile phone) →
  fs w !! AdaptiveIcon.tv_icon base_dir = Some (PngFile tv) →
  width phone = height phone → 1 ≤ width phone ≤ 4096 →
  width tv = height tv → 1 ≤ width tv ≤ 4096 →
  ∃ phone_resized tv_resized,
    resize lanczos (convert RGBA phone) (675, 675) = Ok phone_resized ∧
    resize lanczos (convert RGBA tv) (675, 675) = Ok tv_resized ∧
    let canvas resized :=
      paste_mask blend (solid RGBA (1024, 1024) (0, 0, 0, 0)) resized (174, 174) resized in
    AdaptiveIcon.main lanczos blend base_dir w
    = (Ok (),
       mkWorld (<[tv_foreground base_dir := PngFile (canvas tv_resized)]>
                (<[phone_foreground base_dir := PngFile (canvas phone_resized)]> (fs w)))
               (stdout w ++
                ["Created: " +:+ phone_foreground base_dir;
                 "Phone adaptive foreground updated";
                 "Created: " +:+ tv_foreground base_dir;
                 "TV adaptive foreground updated";
                 "
Done! The adaptive icons now have proper safe zone padding.";
                 "The icon content is scaled to fit within the inner 66% of the image."])).
Proof.
  intros Hp Ht Hpsq Hpn Htsq Htn.
  destruct (resize_ok lanczos (convert RGBA phone) 675 675) as [rp Hrp]; [lia..|].
  destruct (resize_ok lanczos (convert RGBA tv) 675 675) as [rt Hrt]; [lia..|].
  exists rp, rt. split; [done|]. split; [done|]. intros canvas.
  assert (Hsafe : AdaptiveIcon.safe_zone_size 1024 = Ok 675) by (vm_compute; reflexivity).
  assert (Hfp : AdaptiveIcon.fit_size 675 (convert RGBA phone) = Ok (675, 675))
    by (apply fit_size_square; [auto| |]; by rewrite ?width_convert, ?height_convert).
  assert (Hft : AdaptiveIcon.fit_size 675 (convert RGBA tv) = Ok (675, 675))
    by (apply fit_size_square; [auto| |]; by rewrite ?width_convert, ?height_convert).
  pose proof (adaptive_foreground_ok lanczos blend _ 1024 675 675 675 rp
                ltac:(lia) Hsafe Hfp Hrp) as Hop.
  pose proof (adaptive_foreground_ok lanczos blend _ 1024 675 675 675 rt
                ltac:(lia) Hsafe Hft Hrt) as Hot.
  change ((1024 - 675) / 2) with 174 in Hop, Hot.
  unfold AdaptiveIcon.main.
  rewrite IO_bind_run, (exists_present w _ _ Hp). cbv beta iota.
  rewrite 2!IO_bind_run.
  rewrite (create_adaptive_foreground_run lanczos blend w _ _ phone) by done.
  rewrite Hop. cbv beta iota. rewrite print_run. cbv beta iota.
  rewrite IO_bind_run, (exists_present _ _ (PngFile tv)); cbv beta iota.
  2: { cbn [fs]. rewrite lookup_insert_ne; [done|].
       apply not_eq_sym, tv_icon_not_phone_foreground. }
  rewrite 2!IO_bind_run.
  rewrite (create_adaptive_foreground_run lanczos blend _ _ _ tv).
  2: { cbn [fs]. rewrite lookup_insert_ne; [done|].
       apply not_eq_sym, tv_icon_not_phone_foreground. }
  rewrite Hot. cbv beta iota. rewrite print_run. cbv beta iota.
  rewrite IO_bind_run, !print_run. cbn [fs stdout].
  rewrite <- !app_assoc. reflexivity.
Qed.



Ltac same_map :=
  apply map_eq; intros ?;
  repeat first
    [ rewrite lookup_insert_eq
    | rewrite lookup_insert_ne by done
    | match goal with
      | |- context [<[?k := _]> _ !! ?i] => destruct (decide (k = i)) as [<-|]
      end ];
  done.

(** The second of two runs printed what the first one did. *)
Ltac same_printed :=
  unfold printed; cbn [stdout];
  match goal with
  | |- drop (length ?out1) _ = _ =>
      let out := fresh "out" in
      let Hout := fresh "Hout" in
      remember out1 as out eqn:Hout;
      rewrite <- ?app_assoc; rewrite drop_app_length;
      subst out; rewrite <- ?app_assoc; rewrite drop_app_length; reflexivity
  end.

Section FixerRerun.

Variable lanczos : Image → Z * Z → list (list Pixel).
Variable blend : Pixel → Pixel → Z → Pixel.
Variable base_dir : string.

(** One target of the entry point, followed by the rest [k] of the
    script, by what the file system holds at the icon's path. *)
Lemma fixer_target_run (icon fg msg : string) (k : IO ()) (w : World) :
  (present ← exists_ icon;
   _ ← (if present : bool then
          _ ← AdaptiveIcon.create_adaptive_foreground lanczos blend icon fg 1024;
          print msg
        else mret ());
   k) w
  = match fs w !! icon return result () * World with
    | None => k w
    | Some Directory => (Raise (IsADirectoryError icon), w)
    | Some (PngFile source) =>
        match AdaptiveIcon.adaptive_foreground lanczos blend (convert RGBA source) 1024
              return result () * World with
        | Ok out => k (mkWorld (<[fg := PngFile out]> (fs w))
                               (stdout w ++ ["Created: " +:+ fg; msg]))
        | Raise e => (Raise e, w)
        end
    end.
Proof using Type.
  destruct (fs w !! icon) as [[|source]|] eqn:Hicon.
  - rewrite IO_bind_run, (exists_present w _ _ Hicon). cbv beta iota.
    rewrite 2!IO_bind_run. unfold AdaptiveIcon.create_adaptive_foreground.
    rewrite IO_bind_run. unfold open. by rewrite Hicon.
  - rewrite IO_bind_run, (exists_present w _ _ Hicon). cbv beta iota.
    rewrite 2!IO_bind_run.
    rewrite (create_adaptive_foreground_run lanczos blend w _ _ source) by done.
    destruct (AdaptiveIcon.adaptive_foreground _ _ _ _); [|done].
    cbv beta iota. rewrite print_run. cbn [fs stdout]. by rewrite <- app_assoc.
  - rewrite IO_bind_run, (exists_missing w _ Hicon). cbv beta iota.
    by rewrite IO_bind_run, IO_ret_run.
Qed.

Lemma fixer_closing_run (w : World) :
  (_ ← print "
Done! The adaptive icons now have proper safe zone padding.";
   print "The icon content is scaled to fit within the inner 66% of the image.") w
  = (Ok (), mkWorld (fs w)
              (stdout w ++
               ["
Done! The adaptive icons now have proper safe zone padding.";
                "The icon content is scaled to fit within the inner 66% of the image."])).
Proof using Type.
  rewrite IO_bind_run, !print_run. cbn [fs stdout]. by rewrite <- app_assoc.
Qed.

End FixerRerun.

Ltac fixer_paths base_dir :=
  pose proof (foregrounds_differ base_dir);
  pose proof (tv_icon_not_phone_foreground base_dir);
  pose proof (icons_not_foregrounds base_dir) as (? & ? & ?).

(** X20: the fixer can be run again: whenever a run of its entry point
    returns, a second run right after it returns too, leaves the file
    system as the first run left it and prints the same lines; the
    outputs are never read back as inputs. *)
Theorem fixer_main_rerun
        (lanczos : Image → Z * Z → list (list Pixel))
        (blend : Pixel → Pixel → Z → Pixel) (base_dir : string) (w w1 : World) :
  AdaptiveIcon.main lanczos blend base_dir w = (Ok (), w1) →
  ∃ w2, AdaptiveIcon.main lanczos blend base_dir w1 = (Ok (), w2) ∧
        fs w2 = fs w1 ∧ printed w1 w2 = printed w w1.
Proof.
  intros Hrun. fixer_paths base_dir.
  unfold AdaptiveIcon.main in *.
  fold (phone_foreground base_dir) in *. fold (tv_foreground base_dir) in *.
  rewrite fixer_target_run in Hrun.
  destruct (fs w !! AdaptiveIcon.phone_icon base_dir) as [[|phone]|] eqn:Hp;
    [discriminate Hrun| |].
  - destruct (AdaptiveIcon.adaptive_foreground lanczos blend (convert RGBA phone) 1024)
      as [po|] eqn:Hpo; [|discriminate Hrun].
    rewrite fixer_target_run in Hrun. cbn [fs stdout] in Hrun.
    rewrite lookup_insert_ne in Hrun by done.
    destruct (fs w !! AdaptiveIcon.tv_icon base_dir) as [[|tv]|] eqn:Ht;
      [discriminate Hrun| |].
    + destruct (AdaptiveIcon.adaptive_foreground lanczos blend (convert RGBA tv) 1024)
        as [to|] eqn:Hto; [|discriminate Hrun].
      rewrite fixer_closing_run in Hrun. cbn [fs stdout] in Hrun.
      injection Hrun as <-.
      rewrite fixer_target_run. cbn [fs stdout].
      rewrite !lookup_insert_ne by done. rewrite Hp, Hpo.
      rewrite fixer_target_run. cbn [fs stdout].
      rewrite !lookup_insert_ne by done. rewrite Ht, Hto.
      rewrite fixer_closing_run. cbn [fs stdout].
      eexists. split; [reflexivity|]. cbn [fs]. split; [same_map|].
      same_printed.
    + rewrite fixer_closing_run in Hrun. cbn [fs stdout] in Hrun.
      injection Hrun as <-.
      rewrite fixer_target_run. cbn [fs stdout].
      rewrite !lookup_insert_ne by done. rewrite Hp, Hpo.
      rewrite fixer_target_run. cbn [fs stdout].
      rewrite !lookup_insert_ne by done. rewrite Ht.
      rewrite fixer_closing_run. cbn [fs stdout].
      eexists. split; [reflexivity|]. cbn [fs]. split; [same_map|].
      same_printed.
  - rewrite fixer_target_run in Hrun.
    destruct (fs w !! AdaptiveIcon.tv_icon base_dir) as [[|tv]|] eqn:Ht;
      [discriminate Hrun| |].
    + destruct (AdaptiveIcon.adaptive_foreground lanczos blend (convert RGBA tv) 1024)
        as [to|] eqn:Hto; [|discriminate Hrun].
      rewrite fixer_closing_run in Hrun. cbn [fs stdout] in Hrun.
      injection Hrun as <-.
      rewrite fixer_target_run. cbn [fs stdout].
      rewrite !lookup_insert_ne by done. rewrite Hp.
      rewrite fixer_target_run. cbn [fs stdout].
      rewrite !lookup_insert_ne by done. rewrite Ht, Hto.
      rewrite fixer_closing_run. cbn [fs stdout].
      eexists. split; [reflexivity|]. cbn [fs]. split; [same_map|].
      same_printed.
    + rewrite fixer_closing_run in Hrun. injection Hrun as <-.
      rewrite fixer_target_run. cbn [fs stdout]. rewrite Hp.
      rewrite fixer_target_run. cbn [fs stdout]. rewrite Ht.
      rewrite fixer_closing_run. cbn [fs stdout].
      eexists. split; [reflexivity|]. cbn [fs]. split; [done|].
      same_printed.
Qed.

Lemma fixer_main_rerun_witness :
  let w := mkWorld {[ "/repo/assets/images/app-icon.png" := PngFile left_bar;
                      "/repo/movieflixtv/assets/images/app-icon.png" := PngFile left_bar ]} [] in
  ∃ w1 w2,
    AdaptiveIcon.main nearest blend_linear "/repo" w = (Ok (), w1) ∧
    AdaptiveIcon.main nearest blend_linear "/repo" w1 = (Ok (), w2) ∧
    fs w2 = fs w1 ∧ printed w1 w2 = printed w w1.
Proof.
  intros w.
  destruct (fixer_main_run nearest blend_linear "/repo" w left_bar left_bar)
    as (rp & rt & _ & _ & Hrun); try reflexivity; try (cbn; lia).
  destruct (fixer_main_rerun nearest blend_linear "/repo" w _ Hrun) as (w2 & Hrun2 & Hfs).
  eexists _, w2. split; [exact Hrun|]. split; [exact Hrun2 | exact Hfs].
Defined.




(** * Further properties of the splash generator *)


Section FontFacts.

Variable Font : Type.
Variable font_exists : string → bool.
Variable truetype : string → Z → option Font.
Variable load_default : Font.


Lemma weight_map_unknown (weight : string) :
  weight ≠ "bold" → weight ≠ "semibold" → weight ≠ "regular" →
  Splash.weight_map !! weight = None.
Proof using Type.
  intros H1 H2 H3. unfold Splash.weight_map.
  rewrite !lookup_insert_ne by done. by rewrite lookup_singleton_ne.
Qed.

End FontFacts.

(** X13: [get_font] treats a weight it does not know as ['regular']. *)
Theorem get_font_unknown_weight
        (Font : Type) (font_exists : string → bool)
        (truetype : string → Z → option Font) (load_default : Font)
        (size : Z) (weight : string) :
  weight ≠ "bold" → weight ≠ "semibold" → weight ≠ "regular" →
  Splash.get_font Font font_exists truetype load_default size weight
  = Splash.get_font Font font_exists truetype load_default size "regular".
Proof.
  intros H1 H2 H3. unfold Splash.get_font.
  rewrite (weight_map_unknown weight H1 H2 H3). reflexivity.
Qed.

Lemma get_font_unknown_weight_witness :
  Splash.get_font nat (fun _ => true) (fun path size => Some (String.length path)) 0%nat
    32 "light"
  = Splash.get_font nat (fun _ => true) (fun path size => Some (String.length path)) 0%nat
      32 "regular".
Proof. apply get_font_unknown_weight; discriminate. Defined.



Lemma on_canvasb_spec box : on_canvasb box = true → on_canvas box.
Proof.
  destruct box as [[[l t] r] b]. unfold on_canvasb, on_canvas.
  rewrite !andb_true_iff. lia.
Qed.

Lemma Forall_forallb {A : Type} (P : A → Prop) (f : A → bool) (l : list A) :
  (∀ x, f x = true → P x) → forallb f l = true → Forall P l.
Proof.
  intros Hf H. apply Forall_forall. intros x Hx.
  rewrite forallb_forall in H. apply Hf, H. by apply list_elem_of_In.
Qed.

(** X15: the fixed layout of the splash screen, for every set of fonts:
    every shape drawn by the header, the pills, the featured panel, the
    cards, the preview and the status line is a non-empty box on the
    1242 x 2688 canvas, and every text is anchored on the canvas; the
    sections lie in disjoint bands of rows in the order header, pills,
    chip row (rows 780..850), featured, cards, preview, status; the two
    orbs are composited on the squares (-40, -20, 480, 500), which starts
    off the canvas, and (822, 2168, 1342, 2688). *)
Theorem splash_static_layout (Font : Type) (fonts : Splash.Fonts Font) :
  let header := Splash.draw_header Font fonts in
  let pills := Splash.draw_meta Font fonts in
  let featured := Splash.draw_featured Font fonts in
  let cards := Splash.draw_cards Font fonts in
  let preview := Splash.draw_preview Font fonts in
  let status := Splash.draw_status Font fonts in
  Forall on_canvas
    (boxes_of (header ++ pills ++ featured ++ cards ++ preview ++ status)) ∧
  Forall (fun '(x, y) => 0 ≤ x < Splash.WIDTH ∧ 0 ≤ y < Splash.HEIGHT)
    (anchors_of (header ++ pills ++ featured ++ cards ++ preview ++ status)) ∧
  (snd (band (boxes_of header)) < fst (band (boxes_of pills)) ∧
   snd (band (boxes_of pills)) < 780 ∧
   850 < fst (band (boxes_of featured)) ∧
   snd (band (boxes_of featured)) < fst (band (boxes_of cards)) ∧
   snd (band (boxes_of cards)) < fst (band (boxes_of preview)) ∧
   snd (band (boxes_of preview)) < fst (band (boxes_of status))) ∧
  boxes_of (Splash.add_orb Font (220, 240) 260 (125, 216, 255, 120)
            ++ Splash.add_orb Font (Splash.WIDTH - 160, Splash.HEIGHT - 260) 260
                 (95, 132, 255, 100))
  = [(-40, -20, 480, 500); (822, 2168, 1342, 2688)].
Proof.
  cbv zeta. split; [|split; [|split]].
  - apply (Forall_forallb _ on_canvasb); [apply on_canvasb_spec | reflexivity].
  - apply (Forall_forallb _ (fun '(x, y) => on_canvasb (x, y, x + 1, y + 1)));
      [|reflexivity].
    intros [x y] Hxy%on_canvasb_spec. unfold on_canvas in Hxy. lia.
  - vm_compute. repeat split.
  - reflexivity.
Qed.

Section SplashFacts.

Variable Font : Type.
Variable font_exists : string → bool.
Variable truetype : string → Z → option Font.
Variable load_default : Font.
Variable getlength : Font → string → float.
Variable paint : Splash.Draw Font → list (list Pixel) → result (list (list Pixel)).

Lemma boxes_of_chip rect radius fill outline width xy text font color
      (later : list (Splash.Draw Font)) :
  boxes_of (Splash.rounded_rect Font rect radius fill outline width
            ++ [Splash.Text Font xy text font color] ++ later)
  = rect :: boxes_of later.
Proof using Type. reflexivity. Qed.

Lemma genre_chips_row (fonts : Splash.Fonts Font) (chips : list string) (x : Z) :
  (∀ c, c ∈ chips →
        ∃ n, int_of_float (getlength (Splash.chip Font fonts) c) = Ok n ∧ 0 ≤ n) →
  ∃ calls,
    Splash.genre_chips Font getlength fonts chips x = (calls, Ok ()) ∧
    chip_row x (boxes_of calls) ∧
    length (boxes_of calls) = length chips.
Proof using Type.
  revert x. induction chips as [|c chips IH]; intros x Hlen.
  - by exists [].
  - destruct (Hlen c) as (n & Hn & Hpos); [by left|].
    cbn [Splash.genre_chips]. rewrite Hn.
    destruct (IH (x + n + 80 + 20)) as (later & Hrun & Hrow & Hcount).
    { intros c' Hc'. apply Hlen. by right. }
    rewrite Hrun. eexists. split; [done|].
    rewrite boxes_of_chip. cbn [chip_row length]. rewrite Hcount.
    repeat split; try done; lia.
Qed.


Lemma base_canvas_ok :
  ∃ canvas, Splash.base_canvas = Ok canvas ∧ size canvas = (Splash.WIDTH, Splash.HEIGHT).
Proof using Type.
  destruct (gradient_loop Splash.WIDTH Splash.HEIGHT Splash.row_color gradient
              (Splash.gradient_start, 255)) as (canvas & Hrun & Hsz & _).
  { unfold Splash.WIDTH; lia. }
  { unfold Splash.HEIGHT; lia. }
  { apply row_color_gradient. }
  exists canvas. split; [|exact Hsz].
  unfold Splash.base_canvas.
  rewrite new_ok by (unfold Splash.WIDTH, Splash.HEIGHT; lia). exact Hrun.
Qed.


End SplashFacts.

Lemma lift_bind {A B : Type} (r : result A) (k : A → IO B) (w : World) :
  (lift r ≫= k) w = match r with
                    | Ok a => k a w
                    | Raise e => (Raise e, w)
                    end.
Proof. rewrite IO_bind_run, lift_run. by destruct r. Qed.

Section SplashMain.

Variable Font : Type.
Variable font_exists : string → bool.
Variable truetype : string → Z → option Font.
Variable load_default : Font.
Variable getlength : Font → string → float.
Variable paint : Splash.Draw Font → list (list Pixel) → result (list (list Pixel)).
Variable PROJECT_ROOT : string.

Lemma splash_main_run (w : World) :
  Splash.main Font font_exists truetype load_default getlength paint PROJECT_ROOT w
  = match splash_canvas Font font_exists truetype load_default getlength paint
          return result () * World with
    | Ok canvas =>
        ((_ ← mkdir (Splash.OUTPUT_DIR PROJECT_ROOT);
          _ ← save canvas (Splash.OUTPUT_PATH PROJECT_ROOT);
          rel ← lift (relative_to (Splash.OUTPUT_PATH PROJECT_ROOT) PROJECT_ROOT);
          print ("Created " +:+ rel)) : IO ()) w
    | Raise e => (Raise e, w)
    end.
Proof using Type.
  unfold Splash.main, splash_canvas. cbv zeta.
  repeat match goal with
         | |- (lift ?r ≫= _) _ = _ =>
             rewrite lift_bind; destruct r as [?|?] eqn:?;
             cbn [mbind result_bind]; [|done]
         end.
  reflexivity.
Qed.

Lemma splash_relative :
  relative_to (Splash.OUTPUT_PATH PROJECT_ROOT) PROJECT_ROOT
  = Ok "assets/images/movies-splash.png".
Proof using Type.
  rewrite <- (relative_to_join PROJECT_ROOT "assets/images/movies-splash.png"). f_equal.
  unfold Splash.OUTPUT_PATH, join. by rewrite !string_app_assoc.
Qed.

Lemma splash_save_run (w : World) canvas :
  (∀ img, fs w !! Splash.OUTPUT_DIR PROJECT_ROOT ≠ Some (PngFile img)) →
  (_ ← mkdir (Splash.OUTPUT_DIR PROJECT_ROOT);
   _ ← save canvas (Splash.OUTPUT_PATH PROJECT_ROOT);
   rel ← lift (relative_to (Splash.OUTPUT_PATH PROJECT_ROOT) PROJECT_ROOT);
   print ("Created " +:+ rel)) w
  = (Ok (), mkWorld (<[Splash.OUTPUT_PATH PROJECT_ROOT := PngFile canvas]>
                     (<[Splash.OUTPUT_DIR PROJECT_ROOT := Directory]> (fs w)))
                    (stdout w ++ ["Created assets/images/movies-splash.png"])).
Proof using Type.
  intros Hdir. rewrite IO_bind_run, (mkdir_ok w _ Hdir). cbv beta iota.
  rewrite IO_bind_run, save_run. cbv beta iota.
  rewrite lift_bind, splash_relative. by rewrite print_run.
Qed.

End SplashMain.

Section SplashRuns.

Variable Font : Type.
Variable font_exists : string → bool.
Variable truetype : string → Z → option Font.
Variable load_default : Font.
Variable getlength : Font → string → float.
Variable paint : Splash.Draw Font → list (list Pixel) → result (list (list Pixel)).

Lemma render_total calls canvas :
  (∀ call rows, ∃ rows', paint call rows = Ok rows') →
  ∃ canvas', Splash.render Font paint calls canvas = Ok canvas'.
Proof using Type.
  intros Hpaint. revert canvas. induction calls as [|call calls IH]; intros canvas.
  - by exists canvas.
  - unfold Splash.render. cbn [for_in].
    destruct (Hpaint call (im canvas)) as [rows ->]. cbn. apply IH.
Qed.

Lemma genre_chips_ok (fonts : Splash.Fonts Font) (chips : list string) (x : Z) :
  (∀ c, ∃ n, int_of_float (getlength (Splash.chip Font fonts) c) = Ok n) →
  snd (Splash.genre_chips Font getlength fonts chips x) = Ok ().
Proof using Type.
  intros Hlen. revert x. induction chips as [|c chips IH]; intros x; [done|].
  cbn [Splash.genre_chips]. destruct (Hlen c) as [n ->].
  specialize (IH (x + n + 80 + 20)).
  by destruct (Splash.genre_chips Font getlength fonts chips (x + n + 80 + 20)).
Qed.

Lemma splash_canvas_total :
  (∀ call rows, ∃ rows', paint call rows = Ok rows') →
  (∀ font c, ∃ n, int_of_float (getlength font c) = Ok n) →
  ∃ canvas,
    splash_canvas Font font_exists truetype load_default getlength paint = Ok canvas.
Proof using Type.
  intros Hpaint Hlen. unfold splash_canvas. cbv zeta.
  destruct (base_canvas_ok) as (c0 & -> & _). cbn [mbind result_bind].
  repeat match goal with
         | |- context [Splash.draw_genres Font getlength ?f] =>
             let H := fresh "H" in
             pose proof (genre_chips_ok f
                           ["Spotlight"; "Thrillers"; "Glow Reels"; "Offline vault"; "Romance"]
                           80 (Hlen _)) as H;
             unfold Splash.draw_genres;
             destruct (Splash.genre_chips Font getlength f _ 80) as [calls outcome];
             cbn [snd] in H; subst outcome
         | |- context [Splash.render Font paint ?calls ?c] =>
             let R := fresh "R" in
             destruct (render_total calls c Hpaint) as [? R]; rewrite R;
             cbn [mbind result_bind]
         end.
  by eexists.
Qed.

End SplashRuns.

(** X16: the row of genre chips: when the measured width of each of the
    five chip texts converts to an integer that is not negative,
    [draw_genres] completes and draws five chips on rows 780..850, the
    first from column 80, each at least 80 wide and each starting 20 to
    the right of the one before. *)
Theorem draw_genres_row
        (Font : Type) (getlength : Font → string → float) (fonts : Splash.Fonts Font) :
  (∀ c, c ∈ ["Spotlight"; "Thrillers"; "Glow Reels"; "Offline vault"; "Romance"] →
        ∃ n, int_of_float (getlength (Splash.chip Font fonts) c) = Ok n ∧ 0 ≤ n) →
  ∃ calls,
    Splash.draw_genres Font getlength fonts = (calls, Ok ()) ∧
    length (boxes_of calls) = 5%nat ∧
    chip_row 80 (boxes_of calls).
Proof.
  intros Hlen.
  destruct (genre_chips_row Font getlength fonts _ 80 Hlen) as (calls & Hrun & Hrow & Hcount).
  unfold Splash.draw_genres. rewrite Hrun. eexists. split; [done|].
  change (boxes_of (Splash.Text Font (80, 720) "Browse by vibe" (Splash.eyebrow Font fonts)
                      (210, 210, 220, 255) :: calls)) with (boxes_of calls).
  by split.
Qed.

Lemma draw_genres_row_witness :
  let fonts := Splash.mkFonts nat 0%nat 1%nat 2%nat 3%nat 4%nat 5%nat 6%nat in
  ∃ calls,
    Splash.draw_genres nat (fun _ _ => 120.5%float) fonts = (calls, Ok ()) ∧
    boxes_of calls = [(80, 780, 280, 850); (300, 780, 500, 850); (520, 780, 720, 850);
                      (740, 780, 940, 850); (960, 780, 1160, 850)].
Proof.
  intros fonts.
  destruct (draw_genres_row nat (fun _ _ => 120.5%float) fonts) as (calls & Hrun & _).
  - intros c _. exists 120. split; [reflexivity | lia].
  - exists calls. split; [exact Hrun|].
    vm_compute in Hrun. injection Hrun as <-. reflexivity.
Defined.




Lemma join_neq (dir name : string) : join dir name ≠ dir.
Proof.
  intros H. apply (f_equal String.length) in H. unfold join in H.
  rewrite !string_length_app in H. cbn in H. lia.
Qed.

(** X22: the splash generator can be run again: whenever [main] returns, a
    second run right after it returns too, saves the same canvas over the
    first, so the file system is as the first run left it, and prints the
    same line. *)
Theorem splash_main_rerun
        (Font : Type) (font_exists : string → bool)
        (truetype : string → Z → option Font) (load_default : Font)
        (getlength : Font → string → float)
        (paint : Splash.Draw Font → list (list Pixel) → result (list (list Pixel)))
        (PROJECT_ROOT : string) (w w1 : World) :
  Splash.main Font font_exists truetype load_default getlength paint PROJECT_ROOT w
  = (Ok (), w1) →
  ∃ w2,
    Splash.main Font font_exists truetype load_default getlength paint PROJECT_ROOT w1
    = (Ok (), w2) ∧
    fs w2 = fs w1 ∧ printed w1 w2 = printed w w1.
Proof.
  intros Hrun. rewrite splash_main_run in Hrun |- *.
  destruct (splash_canvas Font font_exists truetype load_default getlength paint)
    as [canvas|e]; [|discriminate Hrun].
  pose proof (join_neq (Splash.OUTPUT_DIR PROJECT_ROOT) "movies-splash.png") as Hneq.
  fold (Splash.OUTPUT_PATH PROJECT_ROOT) in Hneq.
  assert (Hdir : ∀ img, fs w !! Splash.OUTPUT_DIR PROJECT_ROOT ≠ Some (PngFile img)).
  { intros img Himg. rewrite IO_bind_run in Hrun. unfold mkdir in Hrun.
    rewrite Himg in Hrun. discriminate Hrun. }
  rewrite splash_save_run in Hrun by exact Hdir. injection Hrun as <-.
  rewrite splash_save_run.
  2: { intros img. cbn [fs]. rewrite lookup_insert_ne by done.
       by rewrite lookup_insert_eq. }
  eexists. split; [reflexivity|]. cbn [fs]. split; [same_map | same_printed].
Qed.

Lemma splash_main_rerun_witness :
  ∃ w1 w2,
    Splash.main nat (fun _ => false) (fun _ _ => None) 0%nat (fun _ _ => 120.5%float)
      (fun _ rows => Ok rows) "/repo" (mkWorld ∅ []) = (Ok (), w1) ∧
    Splash.main nat (fun _ => false) (fun _ _ => None) 0%nat (fun _ _ => 120.5%float)
      (fun _ rows => Ok rows) "/repo" w1 = (Ok (), w2) ∧
    fs w2 = fs w1.
Proof.
  destruct (splash_canvas_total nat (fun _ => false) (fun _ _ => None) 0%nat
              (fun _ _ => 120.5%float) (fun _ rows => Ok rows)) as [canvas Hcanvas].
  { intros call rows. by exists rows. }
  { intros font c. exists 120. reflexivity. }
  assert (Hrun : Splash.main nat (fun _ => false) (fun _ _ => None) 0%nat
                   (fun _ _ => 120.5%float) (fun _ rows => Ok rows) "/repo" (mkWorld ∅ [])
                 = (Ok (), mkWorld (<[Splash.OUTPUT_PATH "/repo" := PngFile canvas]>
                                    (<[Splash.OUTPUT_DIR "/repo" := Directory]> ∅))
                                   ([] ++ ["Created assets/images/movies-splash.png"]))).
  { rewrite splash_main_run, Hcanvas. apply splash_save_run. intros img. discriminate. }
  destruct (splash_main_rerun _ _ _ _ _ _ _ _ _ Hrun) as (w2 & Hrun2 & Hfs & _).
  eexists _, w2. split; [exact Hrun|]. split; [exact Hrun2 | exact Hfs].
Defined.
